(** * eaglesync: the export engine (export.go)

    A shallow embedding of [Library.Export] and [Library.copyFile] with the
    collaborators they call: the destination file store (afero.Fs), the
    operating-system side holding the library (os.Open, times.StatFile,
    parseJsonFile), the smart-folder filter, the progress bar and the
    error-collecting worker pool.

    Go values are modelled as follows.
    - [error]: a Go [error] value is an [option error], [None] being [nil].
    - [time.Time]: an instant, as nanoseconds since the epoch in [Z]; Go's
      [!=] on the values returned by the two stat calls is inequality of
      instants.
    - A file store is a finite map from cleaned paths to files.  Whether an
      operation of a collaborator fails is decided by a fault oracle that is
      part of the store: the code under study only reacts to the failures.
      An operation that fails has no effect on the store.
    - Every call to a collaborator is recorded in a trace, so that ordering
      properties (what happened before what, what never happened) can be
      stated. *)

From Stdlib Require Import ZArith Ascii String.
From Stdlib.Strings Require Import Byte.
From stdpp Require Import gmap strings list fin_maps.

Local Open Scope Z_scope.
Local Open Scope string_scope.
Local Open Scope list_scope.

(** ** Paths: path/filepath on a slash-separated system *)

Module filepath.

Definition Separator : ascii := "/"%char.

(** strings.Split(s, "/") *)
Fixpoint split (s : string) : list string :=
  match s with
  | EmptyString => [EmptyString]
  | String c r =>
      if Ascii.eqb c Separator then EmptyString :: split r
      else match split r with
           | h :: t => String c h :: t
           | [] => [String c EmptyString]
           end
  end.

(** strings.Join(elems, "/") *)
Fixpoint concat (elems : list string) : string :=
  match elems with
  | [] => EmptyString
  | [e] => e
  | e :: rest => e +:+ "/" +:+ concat rest
  end.

Definition rooted (path : string) : bool :=
  match path with
  | String c _ => Ascii.eqb c Separator
  | EmptyString => false
  end.

(** The element loop of Clean: [out] is the output so far, last element
    first.  Empty and "." elements are dropped; ".." removes the element
    before it when there is one that is not itself "..", is dropped at
    the root, and is kept otherwise. *)
Fixpoint clean_elems (isRooted : bool) (out : list string) (elems : list string) : list string :=
  match elems with
  | [] => rev out
  | e :: rest =>
      if String.eqb e "" || String.eqb e "." then clean_elems isRooted out rest
      else if String.eqb e ".." then
        match out with
        | top :: below =>
            if String.eqb top ".." then clean_elems isRooted (e :: out) rest
            else clean_elems isRooted below rest
        | [] =>
            if isRooted then clean_elems isRooted [] rest
            else clean_elems isRooted [e] rest
        end
      else clean_elems isRooted (e :: out) rest
  end.

Definition render (isRooted : bool) (elems : list string) : string :=
  match isRooted, elems with
  | true, _ => "/" +:+ concat elems
  | false, [] => "."
  | false, _ => concat elems
  end.

Definition Clean (path : string) : string :=
  render (rooted path) (clean_elems (rooted path) [] (split path)).

(** Join ignores leading empty elements, joins the rest with the separator
    and cleans the result; with no non-empty element it returns "". *)
Fixpoint Join (elem : list string) : string :=
  match elem with
  | [] => ""
  | e :: rest => if String.eqb e "" then Join rest else Clean (concat elem)
  end.

(** Dir: everything up to and including the last separator, cleaned. *)
Definition Dir (path : string) : string :=
  Clean (concat (removelast (split path)) +:+
         (match removelast (split path) with [] => "" | _ => "/" end)).

(** The directory itself and every directory above it, as MkdirAll
    creates them. *)
Definition chain (dir : string) : list string :=
  let r := rooted dir in
  let elems := clean_elems r [] (split dir) in
  map (fun n => render r (take n elems)) (seq 1 (length elems)).

(** A path element that Clean keeps as it is: not empty, not "." or "..",
    and without a separator. *)
Definition plain (e : string) : Prop :=
  e <> "" /\ e <> "." /\ e <> ".." /\ split e = [e].

(** [p] names [dir] or something below it. *)
Definition under (dir p : string) : bool :=
  String.eqb p dir || String.prefix (dir +:+ "/") p.

End filepath.

(** ** Errors: github.com/cockroachdb/errors and errors.Join *)

#[local] Set Warnings "-register-all".

Inductive error : Type :=
| Errno (cause : string)                  (* a failure reported by a collaborator *)
| ErrNew (msg : string)                   (* errors.New(msg) *)
| ErrWrap (cause : error) (msg : string)  (* errors.Wrap(cause, msg), cause non-nil *)
| ErrJoin (errs : list error).            (* the combined error of the pool *)

(** errors.Wrap and errors.Wrapf return nil when the wrapped error is nil. *)
Definition Wrap (err : option error) (msg : string) : option error :=
  match err with
  | None => None
  | Some e => Some (ErrWrap e msg)
  end.

(** ** Times *)

Abbreviation Time := Z (only parsing).

(** Time.UnixMilli: the instant in whole milliseconds, rounded down.  The
    instants of file times are well inside the range in which the result
    fits an int64, so the value is kept in [Z] without wrap-around; the
    same goes for the int64 values of the index. *)
Definition UnixMilli (t : Time) : Z := t `div` 1000000.

(** ** Files and the destination file store (afero.Fs) *)

Record File : Type := mkFile {
  data : list byte;
  AccessTime : Time;
  ModTime : Time
}.

Inductive fsop : Type :=
| OpRemoveAll | OpMkdirAll | OpOpenFile | OpStat | OpWrite | OpChtimes.

Record Fs : Type := mkFs {
  files : gmap string File;
  dirs : gset string;
  (** the time the store stamps on a file it creates or truncates *)
  clock : Time;
  (** which operation fails on which path, and with what cause *)
  fault : fsop -> string -> option error
}.

(** ** The operating-system side: the library on disk (read only) *)

(** Modelled from the spec: the declaration of FileInfo is not in export.go.
    It is the per-asset record: display name, file extension, deletion flag
    and the attributes the rule language inspects. *)
Record FileInfo : Type := mkFileInfo {
  Name : string;
  Ext : string;
  IsDeleted : bool;
  Tags : list string;
  Folders : list string
}.

Inductive osop : Type :=
| OpOpen | OpStatFile | OpRead.

(** What the program reads from the operating system.  parseJsonFile,
    the types Mtime and LibraryInfo, NewFolderFilter and Evaluate are
    declared outside export.go: the outcome of parsing each document and of
    evaluating the filter are taken as given. *)
Record Os (LibraryInfo : Type) : Type := mkOs {
  os_files : gmap string File;
  os_fault : osop -> string -> option error;
  (** parseJsonFile(path, &mtimeMap), Mtime being a map from string to int64 *)
  parseMtime : string -> error + gmap string Z;
  (** parseJsonFile(path, &libraryMetadata) *)
  parseLibraryInfo : string -> error + LibraryInfo;
  (** parseJsonFile(path, &fileInfo) *)
  parseFileInfo : string -> error + FileInfo;
  (** NewFolderFilter(&libraryMetadata).Evaluate(&fileInfo) *)
  Evaluate : LibraryInfo -> FileInfo -> error + string;
  (** the order in which [for ... range mtimeMap] visits the entries of the
      index: Go leaves it open, it is some arrangement of the entries *)
  visit : gmap string Z -> list (string * Z)
}.

Arguments os_files {LibraryInfo} _.
Arguments os_fault {LibraryInfo} _ _ _.
Arguments parseMtime {LibraryInfo} _ _.
Arguments parseLibraryInfo {LibraryInfo} _ _.
Arguments parseFileInfo {LibraryInfo} _ _.
Arguments Evaluate {LibraryInfo} _ _ _.
Arguments visit {LibraryInfo} _ _.

(** The progress bar (progressbar.ProgressBar): its maximum, the number of
    bytes written to it, and whether Finish was called. *)
Record ProgressBar : Type := mkBar {
  bar_max : Z;
  bar_num : Z;
  bar_finished : bool
}.

Record ExportOption : Type := mkOption {
  (** Overwrite the existing file *)
  Overwrite : bool;
  (** Force clean up the destination directory before export *)
  Force : bool;
  (** Bar: whether the pointer to the progress bar is non-nil; the bar
      itself is part of the state *)
  Bar : bool;
  (** GroupBySmartFolder export group by smart folder *)
  GroupBySmartFolder : bool
}.

Record Library : Type := mkLibrary {
  BaseDir : string
  (* the field fs is the destination store of the state *)
}.

(** ** Events *)

Inductive event : Type :=
| EvRemoveAll (dir : string)
| EvParseJson (path : string)
| EvChangeMax (n : Z)
| EvGo (fileInfoName : string)         (* p.Go: a task is submitted *)
| EvEvaluate (info : FileInfo)         (* filter.Evaluate *)
| EvOpen (src : string)                (* os.Open *)
| EvStatFile (src : string)            (* times.StatFile *)
| EvMkdirAll (dir : string)
| EvOpenFile (dst : string)            (* O_RDWR|O_TRUNC|O_CREATE *)
| EvStat (dst : string) (size : nat) (mtime : Z)
| EvCopy (src dst : string)            (* io.Copy *)
| EvChtimes (dst : string) (atime mtime : Z)
| EvWait
| EvFinish.

#[global] Instance FileInfo_eq_dec : EqDecision FileInfo.
Proof. solve_decision. Defined.
#[global] Instance event_eq_dec : EqDecision event.
Proof. solve_decision. Defined.

(** An event that writes to the destination tree. *)
Definition writes (ev : event) : bool :=
  match ev with
  | EvMkdirAll _ | EvOpenFile _ | EvCopy _ _ | EvChtimes _ _ _ => true
  | _ => false
  end.

Definition is_Go (ev : event) : bool :=
  match ev with EvGo _ => true | _ => false end.

Definition is_Evaluate (ev : event) : bool :=
  match ev with EvEvaluate _ => true | _ => false end.

(** ** The state threaded through the code *)

Record State : Type := mkState {
  fs : Fs;
  bar : ProgressBar;
  trace : list event
}.

Definition emit (ev : event) (st : State) : State :=
  mkState (fs st) (bar st) (trace st ++ [ev]).

Definition set_fs (f : Fs) (st : State) : State :=
  mkState f (bar st) (trace st).

Definition set_files (m : gmap string File) (f : Fs) : Fs :=
  mkFs m (dirs f) (clock f) (fault f).

(** ** Computations: state passing with Go's error returns *)

Inductive res (A : Type) : Type :=
| Ok (a : A)
| Err (e : error).

Arguments Ok {A} a.
Arguments Err {A} e.

Definition M (A : Type) : Type := State -> res A * State.

Definition ret {A : Type} (a : A) : M A := fun st => (Ok a, st).

Definition fail {A : Type} (e : error) : M A := fun st => (Err e, st).

Definition bind {A B : Type} (m : M A) (k : A -> M B) : M B :=
  fun st =>
    match m st with
    | (Ok a, st') => k a st'
    | (Err e, st') => (Err e, st')
    end.

Notation "'let*' x := m 'in' k" := (bind m (fun x => k))
  (at level 10, x name, m at level 100, k at level 200).
Notation "'run' m ; k" := (bind m (fun _ => k))
  (at level 10, m at level 100, k at level 200).

(** [if err != nil { return errors.Wrap(err, msg) }] *)
Definition orWrap {A : Type} (m : M A) (msg : string) : M A :=
  fun st =>
    match m st with
    | (Err e, st') => (Err (ErrWrap e msg), st')
    | r => r
    end.

(** [_ = f()]: the error is dropped *)
Definition ignore {A : Type} (m : M A) : M unit :=
  fun st => (Ok tt, snd (m st)).

(** [return err] for a Go error value *)
Definition returnError (err : option error) : M unit :=
  match err with
  | None => ret tt
  | Some e => fail e
  end.

(** The Go error a computation returned. *)
Definition err_of {A : Type} (r : res A) : option error :=
  match r with
  | Ok _ => None
  | Err e => Some e
  end.

Definition lift_sum {A : Type} (r : error + A) : M A :=
  match r with
  | inl e => fail e
  | inr a => ret a
  end.

(** ** Operations of the destination store *)

Definition guard (f : Fs) (op : fsop) (path : string) : M unit :=
  returnError (fault f op path).

Definition remove_under (dir : string) (f : Fs) : Fs :=
  mkFs (filter (fun kv => filepath.under dir (fst kv) = false) (files f))
       (filter (fun p => filepath.under dir p = false) (dirs f))
       (clock f) (fault f).

Definition RemoveAll (path : string) : M unit :=
  fun st =>
    let st := emit (EvRemoveAll path) st in
    (run guard (fs st) OpRemoveAll path;
     fun st => (Ok tt, set_fs (remove_under path (fs st)) st)) st.

Definition MkdirAll (path : string) : M unit :=
  fun st =>
    let st := emit (EvMkdirAll path) st in
    (run guard (fs st) OpMkdirAll path;
     fun st =>
       (Ok tt, set_fs (mkFs (files (fs st))
                            (dirs (fs st) ∪ list_to_set (filepath.chain path))
                            (clock (fs st)) (fault (fs st))) st)) st.

(** The file left by opening [path] with O_RDWR|O_TRUNC|O_CREATE: an
    existing file is cut to length zero and its modification time stamped
    with the clock of the store (as the operating system and afero's
    in-memory store both do), a missing one is created empty. *)
Definition truncated (f : Fs) (path : string) : File :=
  match files f !! path with
  | Some old => mkFile [] (AccessTime old) (clock f)
  | None => mkFile [] (clock f) (clock f)
  end.

Definition OpenFile (path : string) : M unit :=
  fun st =>
    let st := emit (EvOpenFile path) st in
    (run guard (fs st) OpOpenFile path;
     fun st =>
       (Ok tt, set_fs (set_files (<[path := truncated (fs st) path]> (files (fs st))) (fs st)) st)) st.

(** dstFile.Stat() *)
Definition Stat (path : string) : M File :=
  fun st =>
    match files (fs st) !! path with
    | None => (Err (Errno "ENOENT"), emit (EvStat path 0 0) st)
    | Some f =>
        (run guard (fs st) OpStat path; ret f)
          (emit (EvStat path (length (data f)) (ModTime f)) st)
    end.

Definition Chtimes (path : string) (atime mtime : Time) : M unit :=
  fun st =>
    let st := emit (EvChtimes path atime mtime) st in
    (run guard (fs st) OpChtimes path;
     fun st =>
       match files (fs st) !! path with
       | None => (Err (Errno "ENOENT"), st)
       | Some f =>
           (Ok tt, set_fs (set_files (<[path := mkFile (data f) atime mtime]> (files (fs st))) (fs st)) st)
       end) st.

(** Writing [bytes] at offset 0 of a file of content [old]. *)
Definition write_at0 (bytes old : list byte) : list byte :=
  bytes ++ drop (length bytes) old.

(** ** The progress bar *)

Definition ChangeMax64 (n : Z) : M unit :=
  fun st =>
    (Ok tt, mkState (fs st) (mkBar n (bar_num (bar st)) (bar_finished (bar st)))
                    (trace st ++ [EvChangeMax n])).

Definition Finish : M unit :=
  fun st =>
    (Ok tt, mkState (fs st) (mkBar (bar_max (bar st)) (bar_num (bar st)) true)
                    (trace st ++ [EvFinish])).

Definition bar_Write (n : Z) (st : State) : State :=
  mkState (fs st) (mkBar (bar_max (bar st)) (bar_num (bar st) + n) (bar_finished (bar st)))
          (trace st).

(** ** The export engine *)

Section Engine.

Context {LibraryInfo : Type}.
Variable os : Os LibraryInfo.

(** os.Open(src) *)
Definition os_Open (src : string) : M File :=
  fun st =>
    let st := emit (EvOpen src) st in
    match os_fault os OpOpen src, os_files os !! src with
    | Some e, _ => (Err e, st)
    | None, None => (Err (Errno "ENOENT"), st)
    | None, Some f => (Ok f, st)
    end.

(** times.StatFile(srcFile): the access and modification times of the
    source as the file system reports them *)
Definition StatFile (src : string) (srcFile : File) : M File :=
  fun st =>
    let st := emit (EvStatFile src) st in
    match os_fault os OpStatFile src with
    | Some e => (Err e, st)
    | None => (Ok srcFile, st)
    end.

(** io.Copy(writer, srcFile): the whole source is written to the
    destination file, opened at offset 0, and through the MultiWriter to
    the bar when there is one.  Writing stamps the modification time. *)
Definition io_Copy (src dst : string) (srcFile : File) (toBar : bool) : M unit :=
  fun st =>
    let st := emit (EvCopy src dst) st in
    (run returnError (os_fault os OpRead src);
     run guard (fs st) OpWrite dst;
     fun st =>
       match files (fs st) !! dst with
       | None => (Err (Errno "EBADF"), st)
       | Some d =>
           let d' := mkFile (write_at0 (data srcFile) (data d)) (AccessTime d) (clock (fs st)) in
           let st' := set_fs (set_files (<[dst := d']> (files (fs st))) (fs st)) st in
           (Ok tt, if toBar then bar_Write (Z.of_nat (length (data srcFile))) st' else st')
       end) st.

(** The condition of the if statement of copyFile. *)
Definition needs_copy (srcStat dstStat : File) (fileMtime : Z) (option : ExportOption) : bool :=
  negb (Z.eqb (ModTime srcStat) (ModTime dstStat))
  || negb (Z.eqb fileMtime (UnixMilli (ModTime dstStat)))
  || Overwrite option.

Definition copyFile (src dst : string) (fileMtime : Z) (option : ExportOption) : M unit :=
  let* srcFile := orWrap (os_Open src) "open src file failed" in
  let* srcStat := orWrap (StatFile src srcFile) "stat src file failed" in
  run ignore (MkdirAll (filepath.Dir dst));
  run orWrap (OpenFile dst) "open dst file failed";
  let* dstStat := orWrap (Stat dst) "stat dst file failed" in
  if needs_copy srcStat dstStat fileMtime option then
    run orWrap (io_Copy src dst srcFile (Bar option)) "copy file failed";
    run orWrap (Chtimes dst (AccessTime srcStat) (ModTime srcStat))
               ("chtimes failed, path: " +:+ dst);
    ret tt
  else
    (* err is nil here: it was last assigned by dstFile.Stat() *)
    returnError (Wrap None "stat dst file failed").

Definition parseJsonFile {A : Type} (parse : string -> error + A) (path : string) : M A :=
  fun st => lift_sum (parse path) (emit (EvParseJson path) st).

Definition filter_Evaluate (filter : LibraryInfo) (fileInfo : FileInfo) : M string :=
  fun st => lift_sum (Evaluate os filter fileInfo) (emit (EvEvaluate fileInfo) st).

(** The destination of an asset (lines 100 to 115). *)
Definition destination (outputDir : string) (option : ExportOption)
    (filter : LibraryInfo) (fileInfo : FileInfo) : M string :=
  let fileName := Name fileInfo +:+ "." +:+ Ext fileInfo in
  if GroupBySmartFolder option then
    let* category := filter_Evaluate filter fileInfo in
    if String.eqb category "" then ret (filepath.Join [outputDir; "uncategorized"; fileName])
    else ret (filepath.Join [outputDir; category; fileName])
  else ret (filepath.Join [outputDir; fileName]).

(** The function handed to p.Go for one entry of the index.  The closure
    assigns the variable err of Export (lines 87 and 103) and reads it back
    in the next statement; tasks being run one after another (see [range]),
    nothing comes between the two and the variable is modelled as the
    result of the call. *)
Definition task (e : Library) (outputDir : string) (option : ExportOption)
    (filter : LibraryInfo) (fileInfoName : string) (mtime : Z) : M unit :=
  let fileMetadataPath :=
    filepath.Join [BaseDir e; "images"; fileInfoName +:+ ".info"; "metadata.json"] in
  let* fileInfo := parseJsonFile (parseFileInfo os) fileMetadataPath in
  if IsDeleted fileInfo then ret tt
  else
    let infoDir := filepath.Join [BaseDir e; "images"; fileInfoName +:+ ".info"] in
    let fileName := Name fileInfo +:+ "." +:+ Ext fileInfo in
    let src := filepath.Join [infoDir; fileName] in
    let* dst := destination outputDir option filter fileInfo in
    copyFile src dst mtime option.

(** The loop over the index with the pool of line 75, [entries] being the
    index in the order the loop visits it.  The pool is run with one
    worker: each submitted task runs to its end before the next one
    starts, in the order of submission.  [errs] is the list of errors the
    pool has collected; a task that returns nil adds nothing. *)
Fixpoint range (f : string -> Z -> M unit) (entries : list (string * Z))
    (errs : list error) (st : State) : list error * State :=
  match entries with
  | [] => (errs, st)
  | (fileInfoName, mtime) :: rest =>
      if String.eqb fileInfoName "all" then range f rest errs st
      else
        match f fileInfoName mtime (emit (EvGo fileInfoName) st) with
        | (Ok _, st') => range f rest errs st'
        | (Err e, st') => range f rest (errs ++ [e]) st'
        end
  end.

(** p.Wait(): nil when no task returned an error, else their combination *)
Definition Wait (errs : list error) : M unit :=
  fun st =>
    match errs with
    | [] => (Ok tt, emit EvWait st)
    | _ => (Err (ErrJoin errs), emit EvWait st)
    end.

(** Runs [m], then the deferred bar.Finish() when the bar is not nil. *)
Definition deferFinish (hasBar : bool) (m : M unit) : M unit :=
  fun st =>
    let (r, st') := m st in
    if hasBar then (r, snd (Finish st')) else (r, st').

Definition Export (e : Library) (outputDir : string) (option : ExportOption) : M unit :=
  run (if Force option then
         orWrap (RemoveAll outputDir) ("delete directory '" +:+ outputDir +:+ "' failed")
       else ret tt);
  let* mtimeMap := parseJsonFile (parseMtime os) (filepath.Join [BaseDir e; "mtime.json"]) in
  let* libraryMetadata :=
    parseJsonFile (parseLibraryInfo os) (filepath.Join [BaseDir e; "metadata.json"]) in
  let filter := libraryMetadata in
  match mtimeMap !! "all" with
  | None => fail (ErrNew "field 'all' not exists")
  | Some count =>
      run (if Bar option then ChangeMax64 count else ret tt);
      deferFinish (Bar option)
        (fun st =>
           let (errs, st') := range (task e outputDir option filter) (visit os mtimeMap) [] st in
           Wait errs st')
  end.

(** The statements of copyFile before its if statement: they return the
    source file, its times and what dstFile.Stat() reported. *)
Definition prelude (src dst : string) : M (File * File * File) :=
  let* srcFile := orWrap (os_Open src) "open src file failed" in
  let* srcStat := orWrap (StatFile src srcFile) "stat src file failed" in
  run ignore (MkdirAll (filepath.Dir dst));
  run orWrap (OpenFile dst) "open dst file failed";
  let* dstStat := orWrap (Stat dst) "stat dst file failed" in
  ret (srcFile, srcStat, dstStat).

(** The if statement of copyFile. *)
Definition decide_copy (src dst : string) (fileMtime : Z) (option : ExportOption)
    (p : File * File * File) : M unit :=
  let '(srcFile, srcStat, dstStat) := p in
  if needs_copy srcStat dstStat fileMtime option then
    run orWrap (io_Copy src dst srcFile (Bar option)) "copy file failed";
    run orWrap (Chtimes dst (AccessTime srcStat) (ModTime srcStat))
               ("chtimes failed, path: " +:+ dst);
    ret tt
  else
    returnError (Wrap None "stat dst file failed").

(** The entries that stand for assets: all but "all". *)
Definition assets (entries : list (string * Z)) : list (string * Z) :=
  filter (fun kv => fst kv <> "all") entries.

(** Running the tasks of [entries] one after another, each from the state
    the one before left, whatever it returned. *)
Fixpoint run_all (f : string -> Z -> M unit) (entries : list (string * Z))
    (st : State) : list (res unit) * State :=
  match entries with
  | [] => ([], st)
  | (fileInfoName, mtime) :: rest =>
      let (r, st1) := f fileInfoName mtime (emit (EvGo fileInfoName) st) in
      let (rs, st2) := run_all f rest st1 in
      (r :: rs, st2)
  end.

(** The errors among the results of the tasks. *)
Definition errors_of (rs : list (res unit)) : list error :=
  omap err_of rs.

(** Export from line 50 on: everything after the optional removal of the
    output directory. *)
Definition Export_body (e : Library) (outputDir : string) (option : ExportOption) : M unit :=
  let* mtimeMap := parseJsonFile (parseMtime os) (filepath.Join [BaseDir e; "mtime.json"]) in
  let* libraryMetadata :=
    parseJsonFile (parseLibraryInfo os) (filepath.Join [BaseDir e; "metadata.json"]) in
  let filter := libraryMetadata in
  match mtimeMap !! "all" with
  | None => fail (ErrNew "field 'all' not exists")
  | Some count =>
      run (if Bar option then ChangeMax64 count else ret tt);
      deferFinish (Bar option)
        (fun st =>
           let (errs, st') := range (task e outputDir option filter) (visit os mtimeMap) [] st in
           Wait errs st')
  end.


End Engine.

(** ** Reading the trace *)

(** The events [st'] has after those of [st]. *)
Definition new_events (st st' : State) : list event :=
  drop (length (trace st)) (trace st').

(** [st'] continues the trace of [st] with events that satisfy [P]. *)
Definition extends (P : event -> Prop) (st st' : State) : Prop :=
  exists evs, trace st' = trace st ++ evs /\ Forall P evs.

(** Whatever [m] returns, it only adds events that satisfy [P]. *)
Definition emits {A : Type} (P : event -> Prop) (m : M A) : Prop :=
  forall st, extends P st (snd (m st)).

(** The events a call copyFile(src, dst, ...) can record. *)
Definition copy_event (src dst : string) (ev : event) : Prop :=
  match ev with
  | EvOpen s | EvStatFile s => s = src
  | EvMkdirAll d => d = filepath.Dir dst
  | EvOpenFile d | EvStat d _ _ | EvChtimes d _ _ => d = dst
  | EvCopy s d => s = src /\ d = dst
  | _ => False
  end.



(** What Wait returns for the results of the tasks. *)
Definition joined (rs : list (res unit)) : res unit :=
  match errors_of rs with
  | [] => Ok tt
  | errs => Err (ErrJoin errs)
  end.

(** The events Export records before it submits the first task. *)
Definition is_setup (ev : event) : bool :=
  match ev with
  | EvRemoveAll _ | EvParseJson _ | EvChangeMax _ => true
  | _ => false
  end.

(** ** Relations between the state before and after a computation *)

(** Whatever [m] returns, the state it leaves is related by [R] to the one
    it started from. *)
Definition keeps {A : Type} (R : State -> State -> Prop) (m : M A) : Prop :=
  forall st, R st (snd (m st)).

(** An event of a call that only reads, submits or waits. *)
Definition quiet (ev : event) : bool :=
  match ev with
  | EvParseJson _ | EvEvaluate _ | EvGo _ | EvWait => true
  | _ => false
  end.

(** A relation that such events, and doing nothing, do not break. *)
Record steady (R : State -> State -> Prop) : Prop := mkSteady {
  steady_refl : forall st, R st st;
  steady_trans : forall st1 st2 st3, R st1 st2 -> R st2 st3 -> R st1 st3;
  steady_quiet : forall ev st, quiet ev = true -> R st (emit ev st)
}.

(** The clock and the fault oracle of the store are the same. *)
Definition same_env (st st' : State) : Prop :=
  clock (fs st') = clock (fs st) /\ fault (fs st') = fault (fs st).

(** The bar is the same. *)
Definition same_bar (st st' : State) : Prop := bar st' = bar st.

(** Every file of [st] is still there in [st'], and a path that was not
    opened in between holds what it held. *)
Definition only_opened (st st' : State) : Prop :=
  exists evs,
    trace st' = trace st ++ evs /\
    (forall p, EvOpenFile p ∉ evs -> files (fs st') !! p = files (fs st) !! p) /\
    (forall p, is_Some (files (fs st) !! p) -> is_Some (files (fs st') !! p)).

(** [st'] continues [st] with the events [evs], has the files [files'] and
    the bar [bar'], and the same clock and fault oracle. *)
Definition left_as (st st' : State) (evs : list event)
    (files' : gmap string File) (bar' : ProgressBar) : Prop :=
  trace st' = trace st ++ evs /\ files (fs st') = files' /\
  same_env st st' /\ bar st' = bar'.

(** The bar after [n] bytes were written through it, or not. *)
Definition counted (toBar : bool) (n : nat) (b : ProgressBar) : ProgressBar :=
  if toBar then mkBar (bar_max b) (bar_num b + Z.of_nat n) (bar_finished b) else b.

(** What a call copyFile(src, dst, ...) keeps whatever way it ends: the
    clock and the fault oracle, the files at other paths, the presence of
    every file, the bar but for its count (all of it without a bar), and
    all files when [dst] was not opened. *)
Definition framed (dst : string) (option : ExportOption) (st st' : State) : Prop :=
  same_env st st' /\
  (forall p, p <> dst -> files (fs st') !! p = files (fs st) !! p) /\
  (forall p, is_Some (files (fs st) !! p) -> is_Some (files (fs st') !! p)) /\
  bar_max (bar st') = bar_max (bar st) /\
  bar_finished (bar st') = bar_finished (bar st) /\
  (Bar option = false -> bar st' = bar st) /\
  exists evs, trace st' = trace st ++ evs /\
    (EvOpenFile dst ∉ evs -> files (fs st') = files (fs st)).

Section Outcomes.

Context {LibraryInfo : Type}.
Variable os : Os LibraryInfo.

(** The error of os.Open(src), if it fails. *)
Definition open_failure (src : string) : option error :=
  match os_fault os OpOpen src, os_files os !! src with
  | Some e, _ => Some e
  | None, None => Some (Errno "ENOENT")
  | None, Some _ => None
  end.

(** The error of io.Copy, if it fails: reading the source is tried before
    writing the destination. *)
Definition copy_failure (src dst : string) (st : State) : option error :=
  match os_fault os OpRead src with
  | Some e => Some e
  | None => fault (fs st) OpWrite dst
  end.

(** The eight ways a call of copyFile can end, read off its statements in
    order: the result, the events recorded, the files and the bar left. *)
Inductive copy_outcome (src dst : string) (fileMtime : Z) (option : ExportOption)
    (st : State) : res unit -> State -> Prop :=
| open_src_failed e st' :
    open_failure src = Some e ->
    st' = emit (EvOpen src) st ->
    copy_outcome src dst fileMtime option st
      (Err (ErrWrap e "open src file failed")) st'
| stat_src_failed e st' :
    open_failure src = None ->
    os_fault os OpStatFile src = Some e ->
    st' = emit (EvStatFile src) (emit (EvOpen src) st) ->
    copy_outcome src dst fileMtime option st
      (Err (ErrWrap e "stat src file failed")) st'
| open_dst_failed e st' :
    open_failure src = None ->
    os_fault os OpStatFile src = None ->
    fault (fs st) OpOpenFile dst = Some e ->
    left_as st st'
      [EvOpen src; EvStatFile src; EvMkdirAll (filepath.Dir dst); EvOpenFile dst]
      (files (fs st)) (bar st) ->
    copy_outcome src dst fileMtime option st
      (Err (ErrWrap e "open dst file failed")) st'
| stat_dst_failed e st' :
    open_failure src = None ->
    os_fault os OpStatFile src = None ->
    fault (fs st) OpOpenFile dst = None ->
    fault (fs st) OpStat dst = Some e ->
    left_as st st'
      [EvOpen src; EvStatFile src; EvMkdirAll (filepath.Dir dst); EvOpenFile dst;
       EvStat dst 0 (clock (fs st))]
      (<[dst := truncated (fs st) dst]> (files (fs st))) (bar st) ->
    copy_outcome src dst fileMtime option st
      (Err (ErrWrap e "stat dst file failed")) st'
| skipped srcFile st' :
    os_files os !! src = Some srcFile ->
    open_failure src = None ->
    os_fault os OpStatFile src = None ->
    fault (fs st) OpOpenFile dst = None ->
    fault (fs st) OpStat dst = None ->
    needs_copy srcFile (truncated (fs st) dst) fileMtime option = false ->
    left_as st st'
      [EvOpen src; EvStatFile src; EvMkdirAll (filepath.Dir dst); EvOpenFile dst;
       EvStat dst 0 (clock (fs st))]
      (<[dst := truncated (fs st) dst]> (files (fs st))) (bar st) ->
    copy_outcome src dst fileMtime option st (Ok tt) st'
| copy_failed srcFile e st' :
    os_files os !! src = Some srcFile ->
    open_failure src = None ->
    os_fault os OpStatFile src = None ->
    fault (fs st) OpOpenFile dst = None ->
    fault (fs st) OpStat dst = None ->
    needs_copy srcFile (truncated (fs st) dst) fileMtime option = true ->
    copy_failure src dst st = Some e ->
    left_as st st'
      [EvOpen src; EvStatFile src; EvMkdirAll (filepath.Dir dst); EvOpenFile dst;
       EvStat dst 0 (clock (fs st)); EvCopy src dst]
      (<[dst := truncated (fs st) dst]> (files (fs st))) (bar st) ->
    copy_outcome src dst fileMtime option st
      (Err (ErrWrap e "copy file failed")) st'
| chtimes_failed srcFile e st' :
    os_files os !! src = Some srcFile ->
    open_failure src = None ->
    os_fault os OpStatFile src = None ->
    fault (fs st) OpOpenFile dst = None ->
    fault (fs st) OpStat dst = None ->
    needs_copy srcFile (truncated (fs st) dst) fileMtime option = true ->
    copy_failure src dst st = None ->
    fault (fs st) OpChtimes dst = Some e ->
    left_as st st'
      [EvOpen src; EvStatFile src; EvMkdirAll (filepath.Dir dst); EvOpenFile dst;
       EvStat dst 0 (clock (fs st)); EvCopy src dst;
       EvChtimes dst (AccessTime srcFile) (ModTime srcFile)]
      (<[dst := mkFile (data srcFile) (AccessTime (truncated (fs st) dst)) (clock (fs st))]>
         (files (fs st)))
      (counted (Bar option) (length (data srcFile)) (bar st)) ->
    copy_outcome src dst fileMtime option st
      (Err (ErrWrap e ("chtimes failed, path: " +:+ dst))) st'
| copied srcFile st' :
    os_files os !! src = Some srcFile ->
    open_failure src = None ->
    os_fault os OpStatFile src = None ->
    fault (fs st) OpOpenFile dst = None ->
    fault (fs st) OpStat dst = None ->
    needs_copy srcFile (truncated (fs st) dst) fileMtime option = true ->
    copy_failure src dst st = None ->
    fault (fs st) OpChtimes dst = None ->
    left_as st st'
      [EvOpen src; EvStatFile src; EvMkdirAll (filepath.Dir dst); EvOpenFile dst;
       EvStat dst 0 (clock (fs st)); EvCopy src dst;
       EvChtimes dst (AccessTime srcFile) (ModTime srcFile)]
      (<[dst := mkFile (data srcFile) (AccessTime srcFile) (ModTime srcFile)]> (files (fs st)))
      (counted (Bar option) (length (data srcFile)) (bar st)) ->
    copy_outcome src dst fileMtime option st (Ok tt) st'.



End Outcomes.


(** ** A small library and a few destination stores, for running the code *)

Module Demo.

Definition no_fault : fsop -> string -> option error := fun _ _ => None.

Definition no_os_fault : osop -> string -> option error := fun _ _ => None.

Definition abc : list byte := [x61; x62; x63].

Definition old : list byte := [x6f; x6c; x64].

(** The source of asset a1: modified at 1000 ms, last read at 7000 ms. *)
Definition source : File := mkFile abc 7000000000 1000000000.

Definition info_a1 : FileInfo := mkFileInfo "x" "jpg" false ["cats"] [].

Definition info_a2 : FileInfo := mkFileInfo "y" "png" true [] [].

Definition index : gmap string Z := {[ "all" := 2; "a1" := 1000; "a2" := 2000 ]}.

(** The filter of the demonstration: the first tag, or no category. *)
Definition first_tag (_ : unit) (info : FileInfo) : error + string :=
  match Tags info with
  | [] => inr ""
  | t :: _ => inr t
  end.

Definition parse_assets (path : string) : error + FileInfo :=
  if String.eqb path "lib/images/a1.info/metadata.json" then inr info_a1
  else if String.eqb path "lib/images/a2.info/metadata.json" then inr info_a2
  else inl (Errno "ENOENT").

(** index {"all": 2, "a1": 1000, "a2": 2000}, a1 live, a2 deleted *)
Definition library : Os unit :=
  mkOs unit
    {[ "lib/images/a1.info/x.jpg" := source ]}
    no_os_fault
    (fun path => if String.eqb path "lib/mtime.json" then inr index else inl (Errno "ENOENT"))
    (fun path => if String.eqb path "lib/metadata.json" then inr tt else inl (Errno "ENOENT"))
    parse_assets
    first_tag
    map_to_list.

(** The same library with its index missing. *)
Definition no_index : Os unit :=
  mkOs unit
    {[ "lib/images/a1.info/x.jpg" := source ]}
    no_os_fault
    (fun _ => inl (Errno "ENOENT"))
    (fun path => if String.eqb path "lib/metadata.json" then inr tt else inl (Errno "ENOENT"))
    parse_assets
    first_tag
    map_to_list.

Definition lib : Library := mkLibrary "lib".

Definition flat : ExportOption := mkOption false false true false.

Definition grouped : ExportOption := mkOption false false true true.

Definition forced : ExportOption := mkOption false true false false.

Definition start (f : Fs) : State := mkState f (mkBar 0 0 false) [].

(** An empty destination whose clock reads 9000 ms. *)
Definition empty_store : Fs := mkFs ∅ ∅ 9000000000 no_fault.

(** The destination after an earlier export: out/x.jpg has the content and
    the times of the source. *)
Definition exported : Fs :=
  mkFs {[ "out/x.jpg" := source ]} {[ "out" ]} 9000000000 no_fault.

(** A destination whose out/x.jpg has the times of the source but another
    content. *)
Definition stale : Fs :=
  mkFs {[ "out/x.jpg" := mkFile old 7000000000 1000000000 ]} {[ "out" ]} 9000000000 no_fault.

(** An empty destination whose clock reads the modification time of the
    source. *)
Definition same_instant : Fs := mkFs ∅ ∅ 1000000000 no_fault.

(** A destination on which setting times is refused. *)
Definition no_chtimes : Fs :=
  mkFs ∅ ∅ 9000000000
       (fun op _ => match op with OpChtimes => Some (Errno "EPERM") | _ => None end).


(** A destination that cannot be written to. *)
Definition no_write : Fs :=
  mkFs {[ "out/x.jpg" := mkFile old 7000000000 1000000000 ]} {[ "out" ]} 9000000000
       (fun op _ => match op with OpWrite => Some (Errno "ENOSPC") | _ => None end).

(** A destination whose files cannot be inspected. *)
Definition no_stat : Fs :=
  mkFs {[ "out/x.jpg" := mkFile old 7000000000 1000000000 ]} {[ "out" ]} 9000000000
       (fun op _ => match op with OpStat => Some (Errno "EIO") | _ => None end).


(** A destination that holds a file of its own next to an exported one. *)
Definition with_notes : Fs :=
  mkFs {[ "out/x.jpg" := source; "out/notes.txt" := mkFile old 1 2 ]} {[ "out" ]}
       9000000000 no_fault.


(** A library whose index holds nothing but the "all" entry. *)
Definition no_assets : Os unit :=
  mkOs unit ∅ no_os_fault
    (fun path => if String.eqb path "lib/mtime.json" then inr {[ "all" := 0 ]}
                 else inl (Errno "ENOENT"))
    (fun path => if String.eqb path "lib/metadata.json" then inr tt else inl (Errno "ENOENT"))
    parse_assets
    first_tag
    map_to_list.


End Demo.


(** * Properties *)

(** ** What a computation adds to the trace *)


Lemma extends_refl P st : extends P st st.
Proof. exists []. split; [by rewrite app_nil_r | constructor]. Qed.

Lemma extends_trans P st1 st2 st3 :
  extends P st1 st2 -> extends P st2 st3 -> extends P st1 st3.
Proof.
  intros (e1 & H1 & F1) (e2 & H2 & F2). exists (e1 ++ e2). split.
  - by rewrite H2, H1, app_assoc.
  - by apply Forall_app.
Qed.

Lemma extends_emit (P : event -> Prop) ev st : P ev -> extends P st (emit ev st).
Proof. intros H. exists [ev]. split; [done | by repeat constructor]. Qed.

Lemma extends_new_events P st st' :
  extends P st st' -> trace st' = trace st ++ new_events st st' /\ Forall P (new_events st st').
Proof.
  intros (evs & H & F). unfold new_events. rewrite H, drop_app_length. done.
Qed.

Lemma new_events_app st st' evs :
  trace st' = trace st ++ evs -> new_events st st' = evs.
Proof. intros H. unfold new_events. by rewrite H, drop_app_length. Qed.

Lemma extends_weaken (P Q : event -> Prop) st st' :
  (forall ev, P ev -> Q ev) -> extends P st st' -> extends Q st st'.
Proof.
  intros HPQ (evs & H & F). exists evs. split; [done |].
  eapply Forall_impl; eauto.
Qed.

Lemma emits_ret {A} P (a : A) : emits P (ret a).
Proof. intros st. apply extends_refl. Qed.

Lemma emits_fail {A} P e : emits P (@fail A e).
Proof. intros st. apply extends_refl. Qed.

Lemma emits_returnError P err : emits P (returnError err).
Proof. destruct err; [apply emits_fail | apply emits_ret]. Qed.

Lemma emits_lift_sum {A} P (r : error + A) : emits P (lift_sum r).
Proof. destruct r; [apply emits_fail | apply emits_ret]. Qed.

Lemma emits_bind {A B} P (m : M A) (k : A -> M B) :
  emits P m -> (forall a, emits P (k a)) -> emits P (bind m k).
Proof.
  intros Hm Hk st. unfold bind. specialize (Hm st).
  destruct (m st) as [[a | e] st1]; simpl in *; [| done].
  eapply extends_trans; [exact Hm | apply Hk].
Qed.

Lemma emits_orWrap {A} P (m : M A) msg : emits P m -> emits P (orWrap m msg).
Proof.
  intros Hm st. unfold orWrap. specialize (Hm st).
  by destruct (m st) as [[a | e] st1].
Qed.

Lemma emits_ignore {A} P (m : M A) : emits P m -> emits P (ignore m).
Proof. intros Hm st. apply Hm. Qed.

Lemma emits_if {A} P (b : bool) (m1 m2 : M A) :
  emits P m1 -> emits P m2 -> emits P (if b then m1 else m2).
Proof. by destruct b. Qed.

Lemma extends_same_trace P st st' : trace st' = trace st -> extends P st st'.
Proof. intros H. exists []. split; [by rewrite app_nil_r | constructor]. Qed.

Lemma emits_guard P f op path : emits P (guard f op path).
Proof. apply emits_returnError. Qed.

Lemma emits_RemoveAll (P : event -> Prop) path :
  P (EvRemoveAll path) -> emits P (RemoveAll path).
Proof.
  intros H st. unfold RemoveAll.
  eapply extends_trans; [apply (extends_emit P _ st H) |].
  apply emits_bind; [apply emits_guard |].
  intros _ st1. by apply extends_same_trace.
Qed.

Lemma emits_MkdirAll (P : event -> Prop) path :
  P (EvMkdirAll path) -> emits P (MkdirAll path).
Proof.
  intros H st. unfold MkdirAll.
  eapply extends_trans; [apply (extends_emit P _ st H) |].
  apply emits_bind; [apply emits_guard |].
  intros _ st1. by apply extends_same_trace.
Qed.

Lemma emits_OpenFile (P : event -> Prop) path :
  P (EvOpenFile path) -> emits P (OpenFile path).
Proof.
  intros H st. unfold OpenFile.
  eapply extends_trans; [apply (extends_emit P _ st H) |].
  apply emits_bind; [apply emits_guard |].
  intros _ st1. by apply extends_same_trace.
Qed.

Lemma emits_Stat (P : event -> Prop) path :
  (forall n t, P (EvStat path n t)) -> emits P (Stat path).
Proof.
  intros H st. unfold Stat.
  destruct (files (fs st) !! path) as [f |].
  - eapply extends_trans; [apply extends_emit, H |].
    apply emits_bind; [apply emits_guard | intros; apply emits_ret].
  - apply extends_emit, H.
Qed.

Lemma emits_Chtimes (P : event -> Prop) path a m :
  P (EvChtimes path a m) -> emits P (Chtimes path a m).
Proof.
  intros H st. unfold Chtimes.
  eapply extends_trans; [apply (extends_emit P _ st H) |].
  apply emits_bind; [apply emits_guard |].
  intros _ st1. destruct (files (fs st1) !! path); by apply extends_same_trace.
Qed.

Lemma emits_ChangeMax64 (P : event -> Prop) n :
  P (EvChangeMax n) -> emits P (ChangeMax64 n).
Proof. intros H st. exists [EvChangeMax n]. split; [done | by repeat constructor]. Qed.

Lemma emits_Finish (P : event -> Prop) : P EvFinish -> emits P Finish.
Proof. intros H st. exists [EvFinish]. split; [done | by repeat constructor]. Qed.

(** ** Join on paths that are already clean *)

Lemma append_assoc (a b c : string) : (a +:+ b) +:+ c = a +:+ b +:+ c.
Proof.
  induction a as [| x a IH]; [done |].
  change (String x ((a +:+ b) +:+ c) = String x (a +:+ b +:+ c)). by rewrite IH.
Qed.

Lemma split_nonempty s : filepath.split s <> [].
Proof.
  destruct s as [| c s]; simpl; [done |].
  destruct (Ascii.eqb c filepath.Separator); [done |].
  by destruct (filepath.split s).
Qed.

Lemma split_append x y :
  filepath.split (x +:+ String filepath.Separator y) = filepath.split x ++ filepath.split y.
Proof.
  induction x as [| c x IH].
  - change (filepath.split (String filepath.Separator y) = [""] ++ filepath.split y).
    simpl. by rewrite ?Ascii.eqb_refl.
  - change (filepath.split (String c (x +:+ String filepath.Separator y))
            = filepath.split (String c x) ++ filepath.split y).
    simpl. destruct (Ascii.eqb c filepath.Separator); [by rewrite IH |].
    rewrite IH. pose proof (split_nonempty x) as Hne.
    by destruct (filepath.split x).
Qed.

Lemma clean_elems_app isRooted out l1 l2 :
  filepath.clean_elems isRooted out (l1 ++ l2) =
  filepath.clean_elems isRooted (rev (filepath.clean_elems isRooted out l1)) l2.
Proof.
  revert out. induction l1 as [| e l1 IH]; intros out; simpl.
  - by rewrite rev_involutive.
  - destruct (String.eqb e "" || String.eqb e "."); [apply IH |].
    destruct (String.eqb e ".."); [| apply IH].
    destruct out as [| top below]; [destruct isRooted; apply IH |].
    destruct (String.eqb top ".."); apply IH.
Qed.

Lemma clean_elems_plain isRooted out e :
  filepath.plain e ->
  filepath.clean_elems isRooted out [e] = rev out ++ [e].
Proof.
  intros (H1 & H2 & H3 & _). simpl.
  apply String.eqb_neq in H1, H2, H3. by rewrite H1, H2, H3.
Qed.

Lemma concat_snoc l e :
  l <> [] -> filepath.concat (l ++ [e]) = filepath.concat l +:+ "/" +:+ e.
Proof.
  induction l as [| x l IH]; [done |]. intros _.
  destruct l as [| y l]; [done |].
  change (filepath.concat ((x :: y :: l) ++ [e]))
    with (x +:+ "/" +:+ filepath.concat ((y :: l) ++ [e])).
  rewrite IH by done.
  change (filepath.concat (x :: y :: l)) with (x +:+ "/" +:+ filepath.concat (y :: l)).
  by rewrite !append_assoc.
Qed.

Lemma rooted_append x y : x <> "" -> filepath.rooted (x +:+ y) = filepath.rooted x.
Proof. by destruct x. Qed.

(** One more plain element on a path that is clean and is neither "." nor
    the root: Clean has nothing to do. *)
Lemma Clean_onto_clean dir e :
  filepath.Clean dir = dir -> dir <> "." -> dir <> "/" -> filepath.plain e ->
  filepath.Clean (dir +:+ "/" +:+ e) = dir +:+ "/" +:+ e.
Proof.
  intros Hclean Hdot Hroot He.
  assert (Hne : dir <> "") by (intros ->; done).
  unfold filepath.Clean in *.
  rewrite (rooted_append _ _ Hne).
  change ("/" +:+ e) with (String filepath.Separator e).
  rewrite split_append, clean_elems_app.
  destruct He as (H1 & H2 & H3 & Hsplit). rewrite Hsplit.
  rewrite clean_elems_plain by done. rewrite rev_involutive.
  set (L := filepath.clean_elems (filepath.rooted dir) [] (filepath.split dir)) in *.
  unfold filepath.render in *.
  destruct (filepath.rooted dir).
  - destruct L as [| x L]; [by rewrite <- Hclean in Hroot |].
    rewrite concat_snoc by done. rewrite <- Hclean.
    by rewrite !append_assoc.
  - destruct L as [| x L]; [by rewrite <- Hclean in Hdot |].
    rewrite concat_snoc by done. by rewrite Hclean.
Qed.

Lemma plain_path_not_special dir e :
  dir <> "" -> (dir +:+ "/" +:+ e <> ".") /\ (dir +:+ "/" +:+ e <> "/").
Proof.
  intros Hne. destruct dir as [| c dir]; [done |].
  change (String c (dir +:+ String filepath.Separator e) <> "." /\
          String c (dir +:+ String filepath.Separator e) <> "/").
  split; intros H; injection H as _ H; destruct dir; discriminate H.
Qed.

(** On an output directory that is clean and neither "." nor the root,
    Join with plain elements is the path written with separators. *)
Lemma Join_flat_path outputDir fileName :
  filepath.Clean outputDir = outputDir -> outputDir <> "." -> outputDir <> "/" ->
  filepath.plain fileName ->
  filepath.Join [outputDir; fileName] = outputDir +:+ "/" +:+ fileName.
Proof.
  intros Hclean Hdot Hroot Hf.
  assert (Hne : outputDir <> "") by (intros ->; done).
  unfold filepath.Join. apply String.eqb_neq in Hne. rewrite Hne.
  by apply Clean_onto_clean.
Qed.

Lemma Join_grouped_path outputDir category fileName :
  filepath.Clean outputDir = outputDir -> outputDir <> "." -> outputDir <> "/" ->
  filepath.plain category -> filepath.plain fileName ->
  filepath.Join [outputDir; category; fileName]
  = outputDir +:+ "/" +:+ category +:+ "/" +:+ fileName.
Proof.
  intros Hclean Hdot Hroot Hc Hf.
  assert (Hne : outputDir <> "") by (intros ->; done).
  unfold filepath.Join. pose proof Hne as Hne'.
  apply String.eqb_neq in Hne'. rewrite Hne'.
  change (filepath.concat [outputDir; category; fileName])
    with (outputDir +:+ "/" +:+ category +:+ "/" +:+ fileName).
  assert (Hre : outputDir +:+ "/" +:+ category +:+ "/" +:+ fileName
                = (outputDir +:+ "/" +:+ category) +:+ "/" +:+ fileName)
    by (by rewrite !append_assoc).
  rewrite Hre.
  destruct (plain_path_not_special outputDir category Hne) as [Hd Hr].
  apply Clean_onto_clean; try done.
  by apply Clean_onto_clean.
Qed.

(** ** Frame facts of the store operations *)

Lemma truncated_ext f f' path :
  files f = files f' -> clock f = clock f' -> truncated f path = truncated f' path.
Proof. intros Hf Hc. unfold truncated. by rewrite Hf, Hc. Qed.

Lemma truncated_data f path : data (truncated f path) = [].
Proof. unfold truncated. by destruct (files f !! path). Qed.

Lemma truncated_ModTime f path : ModTime (truncated f path) = clock f.
Proof. unfold truncated. by destruct (files f !! path). Qed.

(** MkdirAll, whether it fails or not, leaves the files, the clock, the
    fault oracle and the bar as they were and records one event. *)
Lemma MkdirAll_frame path st :
  let st' := snd (MkdirAll path st) in
  files (fs st') = files (fs st) /\ clock (fs st') = clock (fs st) /\
  fault (fs st') = fault (fs st) /\ bar st' = bar st /\
  trace st' = trace st ++ [EvMkdirAll path].
Proof.
  unfold MkdirAll, bind, guard, returnError. simpl.
  by destruct (fault (fs st) OpMkdirAll path).
Qed.


Lemma RemoveAll_fails path st e :
  fault (fs st) OpRemoveAll path = Some e ->
  RemoveAll path st = (Err e, emit (EvRemoveAll path) st).
Proof. intros H. unfold RemoveAll, bind, guard, returnError. simpl. by rewrite H. Qed.

Lemma RemoveAll_succeeds path st :
  fault (fs st) OpRemoveAll path = None ->
  RemoveAll path st =
    (Ok tt, set_fs (remove_under path (fs st)) (emit (EvRemoveAll path) st)).
Proof. intros H. unfold RemoveAll, bind, guard, returnError. simpl. by rewrite H. Qed.



(** ** The loop over the index *)






Lemma errors_of_cons r rs :
  errors_of (r :: rs) =
  match r with Ok _ => errors_of rs | Err e => e :: errors_of rs end.
Proof. by destruct r. Qed.

(** The loop with its [continue] runs the task of every entry but "all"
    and collects the errors of those that failed. *)
Lemma range_run_all f entries errs st :
  range f entries errs st =
  (errs ++ errors_of (fst (run_all f (filter (fun kv => fst kv <> "all") entries) st)),
   snd (run_all f (filter (fun kv => fst kv <> "all") entries) st)).
Proof.
  revert errs st. induction entries as [| [n t] rest IH]; intros errs st; simpl.
  - by rewrite app_nil_r.
  - destruct (String.eqb n "all") eqn:E.
    + apply String.eqb_eq in E.
      rewrite filter_cons_False by (simpl; tauto). apply IH.
    + apply String.eqb_neq in E.
      rewrite filter_cons_True by done. simpl.
      destruct (f n t (emit (EvGo n) st)) as [[[] | e] st1]; rewrite IH;
        destruct (run_all f _ st1) as [rs st2]; cbn [fst snd];
        rewrite errors_of_cons; [done |].
      by rewrite <- app_assoc.
Qed.





Section EngineProperties.

Context {LibraryInfo : Type}.
Variable os : Os LibraryInfo.

(** ** copyFile, statement by statement *)

Lemma copyFile_unfold src dst fileMtime option st :
  copyFile os src dst fileMtime option st =
  (let* p := prelude os src dst in decide_copy os src dst fileMtime option p) st.
Proof.
  unfold copyFile, prelude, bind.
  destruct (orWrap (os_Open os src) _ st) as [[srcFile | e] st1]; [| done].
  destruct (orWrap (StatFile os src srcFile) _ st1) as [[srcStat | e] st2]; [| done].
  destruct (ignore (MkdirAll (filepath.Dir dst)) st2) as [[[] | e] st3]; [| done].
  destruct (orWrap (OpenFile dst) _ st3) as [[[] | e] st4]; [| done].
  destruct (orWrap (Stat dst) _ st4) as [[dstStat | e] st5]; done.
Qed.

(** When the statements before the if statement succeed, the source
    exists, the destination has just been created or cut to length zero
    and stamped by the store, and dstFile.Stat() reports that file. *)
Lemma prelude_Ok src dst st srcFile srcStat dstStat st1 :
  prelude os src dst st = (Ok (srcFile, srcStat, dstStat), st1) ->
  os_files os !! src = Some srcFile /\ srcStat = srcFile /\
  dstStat = truncated (fs st) dst /\
  files (fs st1) = <[dst := dstStat]> (files (fs st)) /\
  clock (fs st1) = clock (fs st) /\ fault (fs st1) = fault (fs st) /\
  bar st1 = bar st /\
  trace st1 = trace st ++ [EvOpen src; EvStatFile src; EvMkdirAll (filepath.Dir dst);
                           EvOpenFile dst; EvStat dst 0 (clock (fs st))].
Proof.
  unfold prelude, bind, orWrap, os_Open, StatFile, ignore.
  simpl.
  destruct (os_fault os OpOpen src); [done |].
  destruct (os_files os !! src) as [sf |]; [| done].
  destruct (os_fault os OpStatFile src); [done |].
  set (st0 := emit (EvStatFile src) (emit (EvOpen src) st)).
  destruct (MkdirAll_frame (filepath.Dir dst) st0) as (Hf & Hc & Hfa & Hb & Ht).
  set (stm := snd (MkdirAll (filepath.Dir dst) st0)) in *.
  unfold OpenFile, Stat, bind, guard, returnError, ret, fail. simpl.
  destruct (fault (fs stm) OpOpenFile dst); [done |]. simpl.
  rewrite lookup_insert_eq. simpl.
  destruct (fault (fs stm) OpStat dst); [done |]. simpl.
  intros [= <- <- <- <-]. simpl.
  assert (Htr : truncated (fs stm) dst = truncated (fs st) dst)
    by (apply truncated_ext; [by rewrite Hf | by rewrite Hc]).
  rewrite Htr, Hf, Hc, Hfa, Hb, Ht, truncated_data, truncated_ModTime. simpl.
  rewrite <- !app_assoc. simpl. done.
Qed.

(** The if statement of copyFile, outcome by outcome. *)
Lemma decide_copy_eq src dst fileMtime option srcFile srcStat dstStat st d :
  files (fs st) !! dst = Some d ->
  decide_copy os src dst fileMtime option (srcFile, srcStat, dstStat) st =
  if needs_copy srcStat dstStat fileMtime option then
    match os_fault os OpRead src, fault (fs st) OpWrite dst with
    | Some e, _ | None, Some e =>
        (Err (ErrWrap e "copy file failed"), emit (EvCopy src dst) st)
    | None, None =>
        let st1 := snd (io_Copy os src dst srcFile (Bar option) st) in
        match fault (fs st) OpChtimes dst with
        | Some e =>
            (Err (ErrWrap e ("chtimes failed, path: " +:+ dst)),
             emit (EvChtimes dst (AccessTime srcStat) (ModTime srcStat)) st1)
        | None =>
            (Ok tt, snd (Chtimes dst (AccessTime srcStat) (ModTime srcStat) st1))
        end
    end
  else (Ok tt, st).
Proof.
  intros Hd. unfold decide_copy.
  destruct (needs_copy srcStat dstStat fileMtime option); [| done].
  unfold bind, orWrap, io_Copy, Chtimes, bind, guard, returnError, ret, fail.
  unfold emit, set_fs, set_files, bar_Write. simpl.
  destruct (os_fault os OpRead src); [done |].
  destruct (fault (fs st) OpWrite dst); [done |].
  simpl. rewrite Hd. simpl.
  destruct (Bar option); simpl.
  - destruct (fault (fs st) OpChtimes dst); [done |].
    simpl. by rewrite lookup_insert_eq.
  - destruct (fault (fs st) OpChtimes dst); [done |].
    simpl. by rewrite lookup_insert_eq.
Qed.

(** The state io.Copy and Chtimes leave when both succeed. *)
Lemma copied_state src dst srcFile toBar a t st d :
  files (fs st) !! dst = Some d ->
  os_fault os OpRead src = None ->
  fault (fs st) OpWrite dst = None ->
  fault (fs st) OpChtimes dst = None ->
  let st' := snd (Chtimes dst a t (snd (io_Copy os src dst srcFile toBar st))) in
  files (fs st') = <[dst := mkFile (write_at0 (data srcFile) (data d)) a t]> (files (fs st)) /\
  clock (fs st') = clock (fs st) /\ fault (fs st') = fault (fs st) /\
  dirs (fs st') = dirs (fs st) /\
  bar_num (bar st') =
    (if toBar then bar_num (bar st) + Z.of_nat (length (data srcFile)) else bar_num (bar st))%Z /\
  trace st' = trace st ++ [EvCopy src dst; EvChtimes dst a t].
Proof.
  intros Hd Hr Hw Hc.
  unfold io_Copy, Chtimes, bind, guard, returnError, ret, fail.
  unfold emit, set_fs, set_files, bar_Write. simpl.
  rewrite Hr, Hw. simpl. rewrite Hd. simpl.
  destruct toBar; simpl; rewrite Hc; simpl; rewrite lookup_insert_eq; simpl;
    rewrite insert_insert_eq, <- app_assoc; done.
Qed.

(** What a successful copyFile has done: the destination was created or
    cut to length zero; then either nothing more, or the source was copied
    into it and its times set to those of the source. *)
Lemma copyFile_Ok src dst fileMtime option st st' :
  copyFile os src dst fileMtime option st = (Ok tt, st') ->
  exists srcFile,
    os_files os !! src = Some srcFile /\
    let dstStat := truncated (fs st) dst in
    let opened := [EvOpen src; EvStatFile src; EvMkdirAll (filepath.Dir dst);
                   EvOpenFile dst; EvStat dst 0 (clock (fs st))] in
    (needs_copy srcFile dstStat fileMtime option = false /\
     files (fs st') = <[dst := dstStat]> (files (fs st)) /\
     bar st' = bar st /\
     trace st' = trace st ++ opened)
    \/
    (needs_copy srcFile dstStat fileMtime option = true /\
     files (fs st') =
       <[dst := mkFile (data srcFile) (AccessTime srcFile) (ModTime srcFile)]> (files (fs st)) /\
     bar_num (bar st') =
       (if Bar option then bar_num (bar st) + Z.of_nat (length (data srcFile))
        else bar_num (bar st))%Z /\
     trace st' = trace st ++ opened ++
       [EvCopy src dst; EvChtimes dst (AccessTime srcFile) (ModTime srcFile)]).
Proof.
  rewrite copyFile_unfold. unfold bind.
  destruct (prelude os src dst st) as [[[[srcFile srcStat] dstStat] | e] st1] eqn:Hp; [| done].
  apply prelude_Ok in Hp as (Hsrc & -> & Hdst & Hf & Hc & Hfa & Hb & Ht).
  assert (Hd : files (fs st1) !! dst = Some dstStat)
    by (rewrite Hf; apply lookup_insert_eq).
  rewrite (decide_copy_eq _ _ _ _ _ _ _ _ _ Hd). intros Hrun.
  exists srcFile. split; [done |]. simpl. rewrite <- Hdst.
  destruct (needs_copy srcFile dstStat fileMtime option).
  - destruct (os_fault os OpRead src) eqn:Hr; [done |].
    destruct (fault (fs st1) OpWrite dst) eqn:Hw; [done |].
    simpl in Hrun.
    destruct (fault (fs st1) OpChtimes dst) eqn:Hch; [done |].
    injection Hrun as <-. right. split; [done |].
    destruct (copied_state src dst srcFile (Bar option) (AccessTime srcFile)
                (ModTime srcFile) st1 dstStat Hd Hr Hw Hch) as (Hf2 & _ & _ & _ & Hb2 & Ht2).
    rewrite Hf2, Hb2, Ht2, Hf, Hb, Ht, insert_insert_eq, <- app_assoc.
    rewrite Hdst, truncated_data. unfold write_at0. rewrite drop_nil, app_nil_r.
    done.
  - injection Hrun as <-. left. by rewrite Hf, Hb, Ht.
Qed.

(** ** The traces of copyFile, of a task and of the loop *)

Lemma emits_os_Open (P : event -> Prop) src : P (EvOpen src) -> emits P (os_Open os src).
Proof.
  intros H st. unfold os_Open.
  destruct (os_fault os OpOpen src); [by apply extends_emit |].
  destruct (os_files os !! src); by apply extends_emit.
Qed.

Lemma emits_StatFile (P : event -> Prop) src f :
  P (EvStatFile src) -> emits P (StatFile os src f).
Proof.
  intros H st. unfold StatFile.
  destruct (os_fault os OpStatFile src); by apply extends_emit.
Qed.

Lemma emits_io_Copy (P : event -> Prop) src dst f toBar :
  P (EvCopy src dst) -> emits P (io_Copy os src dst f toBar).
Proof.
  intros H st. unfold io_Copy.
  eapply extends_trans; [apply (extends_emit P _ st H) |].
  apply emits_bind; [apply emits_returnError |]. intros _.
  apply emits_bind; [apply emits_guard |]. intros _ st1.
  destruct (files (fs st1) !! dst); [| apply extends_refl].
  destruct toBar; by apply extends_same_trace.
Qed.

Lemma copyFile_emits (P : event -> Prop) src dst fileMtime option :
  (forall ev, copy_event src dst ev -> P ev) ->
  emits P (copyFile os src dst fileMtime option).
Proof.
  intros H. unfold copyFile.
  apply emits_bind; [apply emits_orWrap, emits_os_Open, H; done |]. intros srcFile.
  apply emits_bind; [apply emits_orWrap, emits_StatFile, H; done |]. intros srcStat.
  apply emits_bind; [apply emits_ignore, emits_MkdirAll, H; done |]. intros _.
  apply emits_bind; [apply emits_orWrap, emits_OpenFile, H; done |]. intros _.
  apply emits_bind; [apply emits_orWrap, emits_Stat; intros; apply H; done |].
  intros dstStat. apply emits_if; [| apply emits_returnError].
  apply emits_bind; [apply emits_orWrap, emits_io_Copy, H; done |]. intros _.
  apply emits_bind; [apply emits_orWrap, emits_Chtimes, H; done |]. intros _.
  apply emits_ret.
Qed.

Lemma emits_parseJsonFile {A} (P : event -> Prop) (parse : string -> error + A) path :
  P (EvParseJson path) -> emits P (parseJsonFile parse path).
Proof.
  intros H st. unfold parseJsonFile.
  eapply extends_trans; [apply (extends_emit P _ st H) | apply emits_lift_sum].
Qed.

Lemma emits_filter_Evaluate (P : event -> Prop) filter fileInfo :
  P (EvEvaluate fileInfo) -> emits P (filter_Evaluate os filter fileInfo).
Proof.
  intros H st. unfold filter_Evaluate.
  eapply extends_trans; [apply (extends_emit P _ st H) | apply emits_lift_sum].
Qed.

(** A task records the parsing of the asset's metadata, an evaluation of
    the filter only when grouping is on, and the events of one copyFile. *)
Lemma task_emits (P : event -> Prop) e outputDir option filter fileInfoName mtime :
  (forall path, P (EvParseJson path)) ->
  (GroupBySmartFolder option = true -> forall info, P (EvEvaluate info)) ->
  (forall src dst ev, copy_event src dst ev -> P ev) ->
  emits P (task os e outputDir option filter fileInfoName mtime).
Proof.
  intros Hp He Hc. unfold task.
  apply emits_bind; [apply emits_parseJsonFile, Hp |]. intros fileInfo.
  apply emits_if; [apply emits_ret |].
  apply emits_bind; [| intros dst; apply copyFile_emits, Hc].
  unfold destination. destruct (GroupBySmartFolder option); [| apply emits_ret].
  apply emits_bind; [apply emits_filter_Evaluate, He; done |]. intros category.
  apply emits_if; apply emits_ret.
Qed.


(** ** Deleted assets *)


(** ** The destination of a live asset *)

(** C6. For a live asset the task calls copyFile with the destination
    Join(outputDir, category, name.ext) when grouping is on and the filter
    returns a non-empty category, Join(outputDir, "uncategorized", name.ext)
    when it returns the empty category, and Join(outputDir, name.ext) when
    grouping is off; in the last case the task records no evaluation of
    the filter.  ([Join_grouped_path] and [Join_flat_path] write these
    paths out with separators.) *)
Theorem destination_of_live_asset e outputDir option filter fileInfoName mtime st fileInfo :
  let metadataPath :=
    filepath.Join [BaseDir e; "images"; fileInfoName +:+ ".info"; "metadata.json"] in
  let fileName := Name fileInfo +:+ "." +:+ Ext fileInfo in
  let src :=
    filepath.Join [filepath.Join [BaseDir e; "images"; fileInfoName +:+ ".info"]; fileName] in
  let outcome := task os e outputDir option filter fileInfoName mtime st in
  parseFileInfo os metadataPath = inr fileInfo ->
  IsDeleted fileInfo = false ->
  (GroupBySmartFolder option = true ->
   forall category, Evaluate os filter fileInfo = inr category -> category <> "" ->
     outcome = copyFile os src (filepath.Join [outputDir; category; fileName]) mtime option
             (emit (EvEvaluate fileInfo) (emit (EvParseJson metadataPath) st))) /\
  (GroupBySmartFolder option = true ->
   Evaluate os filter fileInfo = inr "" ->
     outcome = copyFile os src (filepath.Join [outputDir; "uncategorized"; fileName]) mtime option
             (emit (EvEvaluate fileInfo) (emit (EvParseJson metadataPath) st))) /\
  (GroupBySmartFolder option = false ->
     outcome = copyFile os src (filepath.Join [outputDir; fileName]) mtime option
             (emit (EvParseJson metadataPath) st) /\
     Forall (fun ev => is_Evaluate ev = false) (new_events st (snd outcome))).
Proof.
  intros metadataPath fileName src outcome Hparse Hlive.
  subst outcome. unfold task at 1 2 3. unfold bind, parseJsonFile.
  fold metadataPath. rewrite Hparse. simpl. rewrite Hlive.
  fold fileName. fold src. unfold destination. fold fileName.
  split; [| split].
  - intros Hg category Hev Hne. rewrite Hg.
    unfold bind, filter_Evaluate. rewrite Hev. simpl.
    apply String.eqb_neq in Hne. by rewrite Hne.
  - intros Hg Hev. rewrite Hg.
    unfold bind, filter_Evaluate. rewrite Hev. simpl. done.
  - intros Hg. rewrite Hg. simpl. split; [done |].
    apply extends_new_events.
    apply (task_emits (fun ev => is_Evaluate ev = false)); try done.
    + by rewrite Hg.
    + intros s d ev. by destruct ev.
Qed.

(** With grouping off, no task of an export evaluates the filter: see
    [Export_flat_never_evaluates] below. *)

(** ** Truncation comes before the decision *)


(** C3. Whenever copyFile gets as far as its if statement, the destination
    has been opened with O_TRUNC|O_CREATE just before: it exists, its
    content is empty, and the file whose time is compared is that empty
    file.  This does not depend on the options.  A call that returns nil
    has got that far, and leaves a destination file behind. *)
Theorem copyFile_truncates_before_deciding src dst fileMtime option st :
  (forall srcFile srcStat dstStat st1,
     prelude os src dst st = (Ok (srcFile, srcStat, dstStat), st1) ->
     files (fs st1) !! dst = Some dstStat /\ data dstStat = [] /\
     exists before,
       trace st1 = before ++ [EvOpenFile dst; EvStat dst 0 (ModTime dstStat)]) /\
  (forall st',
     copyFile os src dst fileMtime option st = (Ok tt, st') ->
     is_Some (files (fs st') !! dst) /\
     exists p st1,
       prelude os src dst st = (Ok p, st1) /\
       decide_copy os src dst fileMtime option p st1 = (Ok tt, st')).
Proof.
  split.
  - intros srcFile srcStat dstStat st1 Hp.
    apply prelude_Ok in Hp as (_ & _ & Hdst & Hf & _ & _ & _ & Ht).
    split; [by rewrite Hf, lookup_insert_eq |].
    split; [by rewrite Hdst, truncated_data |].
    exists (trace st ++ [EvOpen src; EvStatFile src; EvMkdirAll (filepath.Dir dst)]).
    rewrite Ht, Hdst, truncated_ModTime, <- app_assoc. done.
  - intros st' Hrun. split.
    + apply copyFile_Ok in Hrun as (srcFile & _ & [(_ & Hf & _) | (_ & Hf & _)]);
        rewrite Hf, lookup_insert_eq; eauto.
    + rewrite copyFile_unfold in Hrun. unfold bind in Hrun.
      destruct (prelude os src dst st) as [[p | e] st1]; [| done].
      by exists p, st1.
Qed.

(** ** Times after a copy *)







(** ** Export: the optional removal, then the rest *)

Lemma Export_unforced e outputDir option st :
  Force option = false ->
  Export os e outputDir option st = Export_body os e outputDir option st.
Proof. intros H. unfold Export, Export_body, bind. by rewrite H. Qed.

Lemma Export_forced e outputDir option st :
  Force option = true ->
  Export os e outputDir option st =
  match fault (fs st) OpRemoveAll outputDir with
  | Some cause =>
      (Err (ErrWrap cause ("delete directory '" +:+ outputDir +:+ "' failed")),
       emit (EvRemoveAll outputDir) st)
  | None =>
      Export_body os e outputDir option
        (set_fs (remove_under outputDir (fs st)) (emit (EvRemoveAll outputDir) st))
  end.
Proof.
  intros H. unfold Export, bind, orWrap. rewrite H.
  destruct (fault (fs st) OpRemoveAll outputDir) as [cause |] eqn:Hf.
  - by rewrite (RemoveAll_fails _ _ _ Hf).
  - by rewrite (RemoveAll_succeeds _ _ Hf).
Qed.

(** When a document cannot be loaded or the index has no "all" entry, the
    rest of Export returns an error having only parsed: the store and the
    bar are untouched. *)
Lemma Export_body_fatal e outputDir option st :
  (exists err, parseMtime os (filepath.Join [BaseDir e; "mtime.json"]) = inl err) \/
  (exists err, parseLibraryInfo os (filepath.Join [BaseDir e; "metadata.json"]) = inl err) \/
  (exists mtimeMap,
     parseMtime os (filepath.Join [BaseDir e; "mtime.json"]) = inr mtimeMap /\
     mtimeMap !! "all" = None) ->
  exists err st',
    Export_body os e outputDir option st = (Err err, st') /\
    fs st' = fs st /\ bar st' = bar st /\
    exists evs, trace st' = trace st ++ evs /\ Forall (fun ev => is_setup ev = true) evs.
Proof.
  intros Hfatal. unfold Export_body, bind, parseJsonFile.
  set (p1 := filepath.Join [BaseDir e; "mtime.json"]) in *.
  set (p2 := filepath.Join [BaseDir e; "metadata.json"]) in *.
  destruct (parseMtime os p1) as [err1 | mtimeMap] eqn:H1; simpl.
  { exists err1, (emit (EvParseJson p1) st). repeat split.
    exists [EvParseJson p1]. split; [done | by repeat constructor]. }
  destruct (parseLibraryInfo os p2) as [err2 | lib] eqn:H2; simpl.
  { exists err2, (emit (EvParseJson p2) (emit (EvParseJson p1) st)). repeat split.
    exists [EvParseJson p1; EvParseJson p2].
    split; [simpl; by rewrite <- app_assoc | by repeat constructor]. }
  destruct Hfatal as [[err H] | [[err H] | (m & H & Hall)]]; try done.
  injection H as <-. rewrite Hall. simpl.
  eexists _, (emit (EvParseJson p2) (emit (EvParseJson p1) st)).
  split; [done |]. repeat split.
  exists [EvParseJson p1; EvParseJson p2].
  split; [simpl; by rewrite <- app_assoc | by repeat constructor].
Qed.

Lemma setup_not_Go_nor_write evs :
  Forall (fun ev => is_setup ev = true) evs ->
  Forall (fun ev => is_Go ev = false /\ writes ev = false) evs.
Proof. intros H. eapply Forall_impl; [exact H |]. intros ev. by destruct ev. Qed.

(** ** Failures that abort the export *)

(** C7. If the modification-time index or the library metadata cannot be
    loaded, or the index has no "all" entry, Export returns an error, and
    what it has done until then contains no submission of a task and no
    write to the destination tree. *)
Theorem Export_fatal_before_tasks e outputDir option st :
  (exists err, parseMtime os (filepath.Join [BaseDir e; "mtime.json"]) = inl err) \/
  (exists err, parseLibraryInfo os (filepath.Join [BaseDir e; "metadata.json"]) = inl err) \/
  (exists mtimeMap,
     parseMtime os (filepath.Join [BaseDir e; "mtime.json"]) = inr mtimeMap /\
     mtimeMap !! "all" = None) ->
  exists err st',
    Export os e outputDir option st = (Err err, st') /\
    Forall (fun ev => is_Go ev = false /\ writes ev = false) (new_events st st').
Proof.
  intros Hfatal. destruct (Force option) eqn:HF.
  - rewrite (Export_forced _ _ _ _ HF).
    destruct (fault (fs st) OpRemoveAll outputDir) as [cause |].
    + eexists _, _. split; [done |].
      rewrite (new_events_app _ _ [EvRemoveAll outputDir]) by done.
      by repeat constructor.
    + set (st0 := set_fs _ _).
      destruct (Export_body_fatal e outputDir option st0 Hfatal)
        as (err & st' & Hrun & _ & _ & evs & Ht & Hall).
      exists err, st'. split; [done |].
      rewrite (new_events_app _ _ (EvRemoveAll outputDir :: evs))
        by (rewrite Ht; simpl; by rewrite <- app_assoc).
      constructor; [done | by apply setup_not_Go_nor_write].
  - rewrite (Export_unforced _ _ _ _ HF).
    destruct (Export_body_fatal e outputDir option st Hfatal)
      as (err & st' & Hrun & _ & _ & evs & Ht & Hall).
    exists err, st'. split; [done |].
    rewrite (new_events_app _ _ evs Ht). by apply setup_not_Go_nor_write.
Qed.

(** ** Force *)




(** ** The scheduler *)


(** Export once the documents are loaded: every asset entry gets its task,
    and Wait returns the errors of the tasks that failed. *)
Lemma Export_body_loop e outputDir option st mtimeMap lib count :
  parseMtime os (filepath.Join [BaseDir e; "mtime.json"]) = inr mtimeMap ->
  parseLibraryInfo os (filepath.Join [BaseDir e; "metadata.json"]) = inr lib ->
  mtimeMap !! "all" = Some count ->
  let loaded := emit (EvParseJson (filepath.Join [BaseDir e; "metadata.json"]))
                  (emit (EvParseJson (filepath.Join [BaseDir e; "mtime.json"])) st) in
  let st0 := if Bar option then snd (ChangeMax64 count loaded) else loaded in
  let done_ :=
    run_all (task os e outputDir option lib) (assets (visit os mtimeMap)) st0 in
  Export_body os e outputDir option st =
    (joined (fst done_),
     if Bar option then snd (Finish (emit EvWait (snd done_))) else emit EvWait (snd done_)).
Proof.
  intros H1 H2 Hall. unfold Export_body, bind, parseJsonFile.
  set (p1 := filepath.Join [BaseDir e; "mtime.json"]) in *.
  set (p2 := filepath.Join [BaseDir e; "metadata.json"]) in *.
  rewrite H1. simpl. rewrite H2. simpl. rewrite Hall.
  unfold deferFinish, assets. simpl.
  destruct (Bar option); simpl; rewrite range_run_all;
    destruct (run_all _ _ _) as [rs st1]; simpl;
    unfold Wait, joined; by destruct (errors_of rs).
Qed.


(** With grouping off, an export never evaluates the filter. *)
Lemma Export_flat_never_evaluates e outputDir option st :
  GroupBySmartFolder option = false ->
  Forall (fun ev => is_Evaluate ev = false)
         (new_events st (snd (Export os e outputDir option st))).
Proof.
  intros Hg. apply extends_new_events.
  revert st. change (emits (fun ev => is_Evaluate ev = false) (Export os e outputDir option)).
  unfold Export.
  apply emits_bind.
  { apply emits_if; [by apply emits_orWrap, emits_RemoveAll | apply emits_ret]. }
  intros _.
  apply emits_bind; [by apply emits_parseJsonFile |]. intros mtimeMap.
  apply emits_bind; [by apply emits_parseJsonFile |]. intros lib.
  destruct (mtimeMap !! "all") as [count |]; [| apply emits_fail].
  apply emits_bind; [apply emits_if; [by apply emits_ChangeMax64 | apply emits_ret] |].
  intros _ st0. unfold deferFinish.
  assert (Hloop : forall entries errs st,
            extends (fun ev => is_Evaluate ev = false) st
              (snd (range (task os e outputDir option lib) entries errs st))).
  { induction entries as [| [n t] rest IH]; intros errs st1; simpl; [apply extends_refl |].
    destruct (String.eqb n "all"); [apply IH |].
    pose proof (task_emits (fun ev => is_Evaluate ev = false) e outputDir option lib n t
                  (fun _ => eq_refl)) as Htask.
    specialize (Htask (fun H => ltac:(congruence))).
    specialize (Htask (fun s d ev => ltac:(by destruct ev)) (emit (EvGo n) st1)).
    destruct (task os e outputDir option lib n t (emit (EvGo n) st1)) as [[[] | err] st2];
      simpl in Htask;
      (eapply extends_trans; [apply (extends_emit _ (EvGo n)); done |]);
      (eapply extends_trans; [exact Htask | apply IH]). }
  specialize (Hloop (visit os mtimeMap) [] st0).
  destruct (range _ _ _ st0) as [errs st1]. simpl in Hloop.
  eapply extends_trans; [exact Hloop |].
  unfold Wait. destruct errs; destruct (Bar option); simpl.
  - exists [EvWait; EvFinish]. split; [simpl; by rewrite <- app_assoc | by repeat constructor].
  - exists [EvWait]. split; [done | by repeat constructor].
  - exists [EvWait; EvFinish]. split; [simpl; by rewrite <- app_assoc | by repeat constructor].
  - exists [EvWait]. split; [done | by repeat constructor].
Qed.

(** ** What is left of an existing destination *)

(** After a copyFile that returns nil the destination holds either nothing
    or the content of the source: whatever it held before is gone. *)
Lemma copyFile_never_keeps_content src dst fileMtime option st st' :
  copyFile os src dst fileMtime option st = (Ok tt, st') ->
  exists srcFile f,
    os_files os !! src = Some srcFile /\ files (fs st') !! dst = Some f /\
    ((data f = [] /\ ModTime f = clock (fs st) /\
      needs_copy srcFile f fileMtime option = false) \/
     (data f = data srcFile /\ EvCopy src dst ∈ new_events st st')).
Proof.
  intros Hrun.
  apply copyFile_Ok in Hrun as (srcFile & Hsrc & [(Hn & Hf & _ & _) | (_ & Hf & _ & Ht)]).
  - exists srcFile, (truncated (fs st) dst).
    split; [done |]. split; [by rewrite Hf, lookup_insert_eq |].
    left. by rewrite truncated_data, truncated_ModTime.
  - exists srcFile, (mkFile (data srcFile) (AccessTime srcFile) (ModTime srcFile)).
    split; [done |]. split; [by rewrite Hf, lookup_insert_eq |].
    right. split; [done |].
    rewrite (new_events_app _ _ _ Ht). simpl.
    do 5 apply list_elem_of_further. apply list_elem_of_here.
Qed.


End EngineProperties.

(** * The code on concrete inputs *)

Example Join_grouped : filepath.Join ["out"; "cats"; "x.jpg"] = "out/cats/x.jpg".
Proof. reflexivity. Qed.

Example Join_flat : filepath.Join ["/tmp/out/"; "x.jpg"] = "/tmp/out/x.jpg".
Proof. reflexivity. Qed.

Example Join_dots : filepath.Join ["out"; "../up"; "./x.jpg"] = "up/x.jpg".
Proof. reflexivity. Qed.

Example Join_empty : filepath.Join [""; ""] = "".
Proof. reflexivity. Qed.

Example Dir_file : filepath.Dir "out/cats/x.jpg" = "out/cats".
Proof. reflexivity. Qed.

Example Dir_bare : filepath.Dir "x.jpg" = ".".
Proof. reflexivity. Qed.

Example Dir_root : filepath.Dir "/x.jpg" = "/".
Proof. reflexivity. Qed.

Example chain_nested : filepath.chain "out/cats" = ["out"; "out/cats"].
Proof. reflexivity. Qed.

Example plain_file_name : filepath.plain "x.jpg".
Proof. by repeat split. Qed.

Example Join_written_out :
  filepath.Join ["/tmp/out"; "cats"; "x.jpg"] = "/tmp/out" +:+ "/" +:+ "cats" +:+ "/" +:+ "x.jpg".
Proof. by apply Join_grouped_path. Qed.

Example UnixMilli_rounds_down : UnixMilli 1000999999 = 1000 /\ UnixMilli (-1) = -1.
Proof. by vm_compute. Qed.

(** The scenario of the specification: an index with a live and a deleted
    asset exports exactly one file and returns nil. *)
Example export_one_of_two :
  let out := Export Demo.library Demo.lib "out" Demo.flat (Demo.start Demo.empty_store) in
  fst out = Ok tt /\
  map_to_list (files (fs (snd out))) = [("out/x.jpg", Demo.source)] /\
  bar (snd out) = mkBar 2 3 true.
Proof. by vm_compute. Qed.

(** C1, on the code.  The destination out/x.jpg exists, its modification
    time is that of the source and that of the index (1000 ms), and
    Overwrite is off: the claim wants it left as it is.  copyFile returns
    nil, but it has cut the file to length zero when opening it and, the
    store having stamped the file at that moment, copied the source over
    it: the old content is gone. *)
Theorem copyFile_uptodate_overwrites :
  let src := "lib/images/a1.info/x.jpg" in
  let dst := "out/x.jpg" in
  let st := Demo.start Demo.stale in
  let out := copyFile Demo.library src dst 1000 Demo.flat st in
  (files (fs st) !! dst = Some (mkFile Demo.old 7000000000 1000000000) /\
   os_files Demo.library !! src = Some (mkFile Demo.abc 7000000000 1000000000) /\
   UnixMilli 1000000000 = 1000 /\ Overwrite Demo.flat = false) /\
  fst out = Ok tt /\
  files (fs (snd out)) !! dst = Some (mkFile Demo.abc 7000000000 1000000000) /\
  new_events st (snd out) =
    [EvOpen src; EvStatFile src; EvMkdirAll "out"; EvOpenFile dst;
     EvStat dst 0 9000000000; EvCopy src dst; EvChtimes dst 7000000000 1000000000].
Proof. by vm_compute. Qed.

(** C2, on the code.  First input: the destination of an earlier export,
    equal to the source in content and times, index 1000 ms, Overwrite off.
    None of the four conditions of the rule holds, and yet the source is
    copied again.  Second input: no destination yet, and a store whose
    clock reads the modification time of the source.  The first condition
    holds, and yet nothing is copied: an empty file is left. *)
Theorem copyFile_decision_ignores_the_old_destination :
  let src := "lib/images/a1.info/x.jpg" in
  let dst := "out/x.jpg" in
  let again := copyFile Demo.library src dst 1000 Demo.flat (Demo.start Demo.exported) in
  let first := copyFile Demo.library src dst 1000 Demo.flat (Demo.start Demo.same_instant) in
  (files Demo.exported !! dst = os_files Demo.library !! src /\
   os_files Demo.library !! src = Some (mkFile Demo.abc 7000000000 1000000000) /\
   UnixMilli 1000000000 = 1000 /\ Overwrite Demo.flat = false /\
   fst again = Ok tt /\
   filter (fun ev => writes ev = true) (trace (snd again)) =
     [EvMkdirAll "out"; EvOpenFile dst; EvCopy src dst; EvChtimes dst 7000000000 1000000000] /\
   bar_num (bar (snd again)) = 3) /\
  (files Demo.same_instant !! dst = None /\
   fst first = Ok tt /\
   filter (fun ev => writes ev = true) (trace (snd first)) =
     [EvMkdirAll "out"; EvOpenFile dst] /\
   files (fs (snd first)) !! dst = Some (mkFile [] 1000000000 1000000000)).
Proof. by vm_compute. Qed.

(** * The theorems at work on the demonstration library *)

Lemma copyFile_truncates_before_deciding_witness :
  let src := "lib/images/a1.info/x.jpg" in
  let dst := "out/x.jpg" in
  let st := Demo.start Demo.stale in
  let st' := snd (copyFile Demo.library src dst 1000 Demo.flat st) in
  is_Some (files (fs st') !! dst) /\
  exists p st1,
    prelude Demo.library src dst st = (Ok p, st1) /\
    decide_copy Demo.library src dst 1000 Demo.flat p st1 = (Ok tt, st').
Proof.
  intros src dst st st'.
  apply (proj2 (copyFile_truncates_before_deciding Demo.library src dst 1000 Demo.flat st)).
  vm_compute. reflexivity.
Defined.



Lemma destination_of_live_asset_witness :
  task Demo.library Demo.lib "out" Demo.grouped tt "a1" 1000 (Demo.start Demo.empty_store)
  = copyFile Demo.library "lib/images/a1.info/x.jpg" "out/cats/x.jpg" 1000 Demo.grouped
      (emit (EvEvaluate Demo.info_a1)
         (emit (EvParseJson "lib/images/a1.info/metadata.json")
            (Demo.start Demo.empty_store))).
Proof.
  apply (proj1 (destination_of_live_asset Demo.library Demo.lib "out" Demo.grouped tt
                  "a1" 1000 (Demo.start Demo.empty_store) Demo.info_a1
                  eq_refl eq_refl)
               eq_refl "cats" eq_refl).
  discriminate.
Defined.

Lemma Export_fatal_before_tasks_witness :
  exists err st',
    Export Demo.no_index Demo.lib "out" Demo.flat (Demo.start Demo.exported) = (Err err, st') /\
    Forall (fun ev => is_Go ev = false /\ writes ev = false)
           (new_events (Demo.start Demo.exported) st').
Proof.
  apply (Export_fatal_before_tasks Demo.no_index Demo.lib "out" Demo.flat
           (Demo.start Demo.exported)).
  left. exists (Errno "ENOENT"). reflexivity.
Defined.




(** * Every way copyFile can end *)

Section Endings.

Context {LibraryInfo : Type}.
Variable os : Os LibraryInfo.

Lemma same_env_refl st : same_env st st.
Proof. by split. Qed.

Lemma same_env_trans st1 st2 st3 : same_env st1 st2 -> same_env st2 st3 -> same_env st1 st3.
Proof. intros [H1 H2] [H3 H4]. split; congruence. Qed.

Lemma left_as_emit st st' evs fl b ev :
  left_as st st' evs fl b -> left_as st (emit ev st') (evs ++ [ev]) fl b.
Proof.
  intros (Ht & Hf & He & Hb). repeat split; simpl; try done; try apply He.
  by rewrite Ht, <- app_assoc.
Qed.

(** The statements before the if statement, failure by failure. *)
Lemma prelude_run src dst st :
  prelude os src dst st =
  let st1 := emit (EvOpen src) st in
  match os_fault os OpOpen src, os_files os !! src with
  | Some e, _ => (Err (ErrWrap e "open src file failed"), st1)
  | None, None => (Err (ErrWrap (Errno "ENOENT") "open src file failed"), st1)
  | None, Some srcFile =>
      let st2 := emit (EvStatFile src) st1 in
      match os_fault os OpStatFile src with
      | Some e => (Err (ErrWrap e "stat src file failed"), st2)
      | None =>
          let st3 := emit (EvOpenFile dst) (snd (MkdirAll (filepath.Dir dst) st2)) in
          match fault (fs st) OpOpenFile dst with
          | Some e => (Err (ErrWrap e "open dst file failed"), st3)
          | None =>
              let st4 :=
                emit (EvStat dst 0 (clock (fs st)))
                  (set_fs (set_files (<[dst := truncated (fs st) dst]> (files (fs st)))
                                     (fs st3)) st3) in
              match fault (fs st) OpStat dst with
              | Some e => (Err (ErrWrap e "stat dst file failed"), st4)
              | None => (Ok (srcFile, srcFile, truncated (fs st) dst), st4)
              end
          end
      end
  end.
Proof.
  unfold prelude, bind, orWrap, os_Open, StatFile, ignore. simpl.
  destruct (os_fault os OpOpen src); [done |].
  destruct (os_files os !! src) as [srcFile |]; [| done].
  destruct (os_fault os OpStatFile src); [done |].
  set (st0 := emit (EvStatFile src) (emit (EvOpen src) st)).
  destruct (MkdirAll_frame (filepath.Dir dst) st0) as (Hf & Hc & Hfa & Hb & Ht).
  set (stm := snd (MkdirAll (filepath.Dir dst) st0)) in *.
  unfold OpenFile, Stat, bind, guard, returnError, ret, fail. simpl.
  rewrite Hfa. simpl.
  destruct (fault (fs st) OpOpenFile dst); [done |]. simpl.
  rewrite lookup_insert_eq. simpl.
  assert (Htr : truncated (fs stm) dst = truncated (fs st) dst)
    by (apply truncated_ext; [by rewrite Hf | by rewrite Hc]).
  rewrite Htr, Hfa, Hf, truncated_data, truncated_ModTime. simpl.
  by destruct (fault (fs st) OpStat dst).
Qed.

Lemma io_Copy_run src dst srcFile toBar st d :
  files (fs st) !! dst = Some d ->
  copy_failure os src dst st = None ->
  left_as st (snd (io_Copy os src dst srcFile toBar st)) [EvCopy src dst]
    (<[dst := mkFile (write_at0 (data srcFile) (data d)) (AccessTime d) (clock (fs st))]>
       (files (fs st)))
    (counted toBar (length (data srcFile)) (bar st)).
Proof.
  unfold copy_failure. intros Hd Hc.
  destruct (os_fault os OpRead src) eqn:Hr; [done |].
  unfold io_Copy, bind, guard, returnError, ret, fail. simpl.
  rewrite Hr. simpl. rewrite Hc. simpl. rewrite Hd.
  by destruct toBar.
Qed.

Lemma Chtimes_run path a t st d :
  files (fs st) !! path = Some d ->
  fault (fs st) OpChtimes path = None ->
  left_as st (snd (Chtimes path a t st)) [EvChtimes path a t]
    (<[path := mkFile (data d) a t]> (files (fs st))) (bar st).
Proof.
  intros Hd Hc. unfold Chtimes, bind, guard, returnError, ret, fail. simpl.
  rewrite Hc. simpl. rewrite Hd. done.
Qed.

Lemma open_failure_None src :
  open_failure os src = None <->
  os_fault os OpOpen src = None /\ is_Some (os_files os !! src).
Proof.
  unfold open_failure.
  destruct (os_fault os OpOpen src); destruct (os_files os !! src); split;
    try done; try (intros [? [? ?]]; done); eauto.
Qed.

(** copyFile ends in one of the eight ways of [copy_outcome]. *)
Lemma copyFile_outcome src dst fileMtime option st :
  copy_outcome os src dst fileMtime option st
    (fst (copyFile os src dst fileMtime option st))
    (snd (copyFile os src dst fileMtime option st)).
Proof.
  rewrite copyFile_unfold. unfold bind. rewrite prelude_run. cbv zeta.
  destruct (os_fault os OpOpen src) as [e |] eqn:Ho.
  { apply open_src_failed; [| done]. unfold open_failure. by rewrite Ho. }
  destruct (os_files os !! src) as [srcFile |] eqn:Hs.
  2:{ apply open_src_failed; [| done]. unfold open_failure. by rewrite Ho, Hs. }
  assert (Hopen : open_failure os src = None) by (unfold open_failure; by rewrite Ho, Hs).
  destruct (os_fault os OpStatFile src) as [e |] eqn:Hst.
  { by apply stat_src_failed. }
  set (st2 := emit (EvStatFile src) (emit (EvOpen src) st)).
  destruct (MkdirAll_frame (filepath.Dir dst) st2) as (Hf & Hc & Hfa & Hb & Ht).
  set (stm := snd (MkdirAll (filepath.Dir dst) st2)) in *.
  destruct (fault (fs st) OpOpenFile dst) as [e |] eqn:Hod.
  { apply open_dst_failed; try done. simpl.
    repeat split; simpl; try done. rewrite Ht. simpl. by rewrite <- !app_assoc. }
  set (st4 := emit (EvStat dst 0 (clock (fs st))) _).
  assert (H4 : left_as st st4
            [EvOpen src; EvStatFile src; EvMkdirAll (filepath.Dir dst); EvOpenFile dst;
             EvStat dst 0 (clock (fs st))]
            (<[dst := truncated (fs st) dst]> (files (fs st))) (bar st)).
  { repeat split; simpl; try done. rewrite Ht. simpl. by rewrite <- !app_assoc. }
  destruct (fault (fs st) OpStat dst) as [e |] eqn:Hsd.
  { by apply stat_dst_failed. }
  pose proof H4 as (Ht4 & Hf4 & [Hc4 Hfa4] & Hb4).
  assert (Hd : files (fs st4) !! dst = Some (truncated (fs st) dst))
    by (rewrite Hf4; apply lookup_insert_eq).
  rewrite (decide_copy_eq os _ _ _ _ _ _ _ _ _ Hd).
  destruct (needs_copy srcFile (truncated (fs st) dst) fileMtime option) eqn:Hn.
  2:{ by apply (skipped os _ _ _ _ _ srcFile). }
  destruct (os_fault os OpRead src) as [e |] eqn:Hr.
  { apply (copy_failed os _ _ _ _ _ srcFile); try done.
    - unfold copy_failure. by rewrite Hr.
    - apply (left_as_emit _ _ _ _ _ (EvCopy src dst) H4). }
  destruct (fault (fs st4) OpWrite dst) as [e |] eqn:Hw.
  { apply (copy_failed os _ _ _ _ _ srcFile); try done.
    - unfold copy_failure. by rewrite Hr, <- Hfa4.
    - apply (left_as_emit _ _ _ _ _ (EvCopy src dst) H4). }
  assert (Hcf4 : copy_failure os src dst st4 = None)
    by (unfold copy_failure; by rewrite Hr).
  assert (Hcf : copy_failure os src dst st = None)
    by (unfold copy_failure; by rewrite Hr, <- Hfa4).
  destruct (io_Copy_run src dst srcFile (Bar option) st4 _ Hd Hcf4)
    as (Ht5 & Hf5 & [Hc5 Hfa5] & Hb5).
  cbv zeta.
  set (st5 := snd (io_Copy os src dst srcFile (Bar option) st4)) in *.
  rewrite truncated_data in Hf5. unfold write_at0 in Hf5.
  rewrite drop_nil, app_nil_r in Hf5.
  destruct (fault (fs st4) OpChtimes dst) as [e |] eqn:Hch.
  - apply (chtimes_failed os _ _ _ _ _ srcFile); try done; [by rewrite <- Hfa4 |].
    repeat split; simpl.
    + rewrite Ht5, Ht4. by rewrite <- !app_assoc.
    + by rewrite Hf5, Hf4, insert_insert_eq, Hc4.
    + congruence.
    + congruence.
    + by rewrite Hb5, Hb4.
  - assert (Hd5 : files (fs st5) !! dst
                  = Some (mkFile (data srcFile) (AccessTime (truncated (fs st) dst))
                                 (clock (fs st4))))
      by (rewrite Hf5; apply lookup_insert_eq).
    assert (Hch5 : fault (fs st5) OpChtimes dst = None) by (by rewrite Hfa5).
    destruct (Chtimes_run dst (AccessTime srcFile) (ModTime srcFile) st5 _ Hd5 Hch5)
      as (Ht6 & Hf6 & [Hc6 Hfa6] & Hb6).
    apply (copied os _ _ _ _ _ srcFile); try done; [by rewrite <- Hfa4 |].
    repeat split; simpl.
    + rewrite Ht6, Ht5, Ht4. by rewrite <- !app_assoc.
    + by rewrite Hf6, Hf5, Hf4, !insert_insert_eq.
    + congruence.
    + congruence.
    + by rewrite Hb6, Hb5, Hb4.
Qed.

End Endings.

(** * copyFile: errors, what is left behind, and the two successful ends *)

Section CopyFileProperties.

Context {LibraryInfo : Type}.
Variable os : Os LibraryInfo.



Lemma needs_copy_false srcStat dstStat fileMtime option :
  needs_copy srcStat dstStat fileMtime option = false <->
  ModTime srcStat = ModTime dstStat /\ fileMtime = UnixMilli (ModTime dstStat) /\
  Overwrite option = false.
Proof.
  unfold needs_copy. rewrite !orb_false_iff, !negb_false_iff, !Z.eqb_eq. tauto.
Qed.

(** The outcome of a call, as a pair. *)
Lemma copyFile_outcome_of src dst fileMtime option st r st' :
  copyFile os src dst fileMtime option st = (r, st') ->
  copy_outcome os src dst fileMtime option st r st'.
Proof.
  intros H. pose proof (copyFile_outcome os src dst fileMtime option st) as Ho.
  by rewrite H in Ho.
Qed.

Lemma left_as_same_files dst option st st' evs :
  left_as st st' evs (files (fs st)) (bar st) -> framed dst option st st'.
Proof.
  intros (Ht & Hf & He & Hb). unfold framed. rewrite Hb, Hf.
  repeat split; try apply He; try done. by exists evs.
Qed.

Lemma left_as_insert dst option st st' evs f b :
  left_as st st' evs (<[dst := f]> (files (fs st))) b ->
  EvOpenFile dst ∈ evs ->
  (exists n, b = counted (Bar option) n (bar st)) \/ b = bar st ->
  framed dst option st st'.
Proof.
  intros (Ht & Hf & He & Hb) Hin Hbar. unfold framed. rewrite Hb, Hf.
  split; [exact He |].
  split; [intros p Hp; by rewrite lookup_insert_ne |].
  split.
  { intros p Hp. destruct (decide (dst = p)) as [-> | Hne].
    - rewrite lookup_insert_eq. eauto.
    - by rewrite lookup_insert_ne. }
  assert (Hb3 : bar_max b = bar_max (bar st) /\ bar_finished b = bar_finished (bar st) /\
                (Bar option = false -> b = bar st)).
  { destruct Hbar as [[n ->] | ->]; [| done]. unfold counted. by destruct (Bar option). }
  destruct Hb3 as (? & ? & ?).
  split; [done |]. split; [done |]. split; [done |].
  exists evs. split; [done |]. intros Hno. by destruct Hno.
Qed.

(** What every ending keeps: the clock, the fault oracle, the files at
    other paths, and the bar but for its count. *)
Lemma copy_outcome_frame src dst fileMtime option st r st' :
  copy_outcome os src dst fileMtime option st r st' -> framed dst option st st'.
Proof.
  destruct 1 as
    [e st' Ho ->
    |e st' Ho Hs ->
    |e st' Ho Hs Hod Hl
    |e st' Ho Hs Hod Hsd Hl
    |srcFile st' Hsrc Ho Hs Hod Hsd Hn Hl
    |srcFile e st' Hsrc Ho Hs Hod Hsd Hn Hc Hl
    |srcFile e st' Hsrc Ho Hs Hod Hsd Hn Hc Hch Hl
    |srcFile st' Hsrc Ho Hs Hod Hsd Hn Hc Hch Hl].
  - apply (left_as_same_files _ _ _ _ [EvOpen src]). by repeat split.
  - apply (left_as_same_files _ _ _ _ [EvOpen src; EvStatFile src]).
    repeat split; try done. simpl. by rewrite <- app_assoc.
  - by eapply left_as_same_files.
  - eapply left_as_insert; [exact Hl | | by right].
    do 3 apply list_elem_of_further. apply list_elem_of_here.
  - eapply left_as_insert; [exact Hl | | by right].
    do 3 apply list_elem_of_further. apply list_elem_of_here.
  - eapply left_as_insert; [exact Hl | | by right].
    do 3 apply list_elem_of_further. apply list_elem_of_here.
  - eapply left_as_insert; [exact Hl | | left; eauto].
    do 3 apply list_elem_of_further. apply list_elem_of_here.
  - eapply left_as_insert; [exact Hl | | left; eauto].
    do 3 apply list_elem_of_further. apply list_elem_of_here.
Qed.


(** The ending of a call in which everything works and the if statement
    is not entered. *)
Lemma copyFile_run_skipped src dst fileMtime option st srcFile :
  os_files os !! src = Some srcFile ->
  os_fault os OpOpen src = None ->
  os_fault os OpStatFile src = None ->
  fault (fs st) OpOpenFile dst = None ->
  fault (fs st) OpStat dst = None ->
  needs_copy srcFile (truncated (fs st) dst) fileMtime option = false ->
  fst (copyFile os src dst fileMtime option st) = Ok tt /\
  left_as st (snd (copyFile os src dst fileMtime option st))
    [EvOpen src; EvStatFile src; EvMkdirAll (filepath.Dir dst); EvOpenFile dst;
     EvStat dst 0 (clock (fs st))]
    (<[dst := truncated (fs st) dst]> (files (fs st))) (bar st).
Proof.
  intros Hsrc Ho Hs Hod Hsd Hn.
  assert (Hof : open_failure os src = None) by (unfold open_failure; by rewrite Ho, Hsrc).
  pose proof (copyFile_outcome os src dst fileMtime option st) as Hout.
  destruct (copyFile os src dst fileMtime option st) as [r st']. simpl in *.
  inversion Hout; subst; try congruence. done.
Qed.

(** X1. Every error copyFile returns is a cause wrapped with the name of
    the statement that failed: opening or inspecting the source, opening or
    inspecting the destination, copying, or setting the times.  The cause
    is what the failing collaborator reported; MkdirAll never contributes
    one. *)
Theorem copyFile_error_names_its_step src dst fileMtime option st err st' :
  copyFile os src dst fileMtime option st = (Err err, st') ->
  exists cause msg,
    err = ErrWrap cause msg /\
    ((msg = "open src file failed" /\ open_failure os src = Some cause) \/
     (msg = "stat src file failed" /\ os_fault os OpStatFile src = Some cause) \/
     (msg = "open dst file failed" /\ fault (fs st) OpOpenFile dst = Some cause) \/
     (msg = "stat dst file failed" /\ fault (fs st) OpStat dst = Some cause) \/
     (msg = "copy file failed" /\ copy_failure os src dst st = Some cause) \/
     (msg = "chtimes failed, path: " +:+ dst /\ fault (fs st) OpChtimes dst = Some cause)).
Proof.
  intros Hrun. apply copyFile_outcome_of in Hrun.
  inversion Hrun; subst; eexists _, _; (split; [reflexivity |]); tauto.
Qed.

(** X2. However copyFile ends, it leaves every file of the destination
    store other than dst as it was, removes no file, and changes neither
    the clock nor the fault oracle of the store; of the bar only the count
    can change, and nothing of it when the option has no bar; and when dst
    was never opened the files are all as before. *)
Theorem copyFile_touches_only_dst src dst fileMtime option st r st' :
  copyFile os src dst fileMtime option st = (r, st') ->
  clock (fs st') = clock (fs st) /\ fault (fs st') = fault (fs st) /\
  (forall p, p <> dst -> files (fs st') !! p = files (fs st) !! p) /\
  (forall p, is_Some (files (fs st) !! p) -> is_Some (files (fs st') !! p)) /\
  bar_max (bar st') = bar_max (bar st) /\
  bar_finished (bar st') = bar_finished (bar st) /\
  (Bar option = false -> bar st' = bar st) /\
  (EvOpenFile dst ∉ new_events st st' -> files (fs st') = files (fs st)).
Proof.
  intros Hrun. apply copyFile_outcome_of, copy_outcome_frame in Hrun.
  destruct Hrun as ([Hc Hfa] & Hp & Hs & Hm & Hfin & Hb & evs & Ht & Hno).
  repeat split; try done. by rewrite (new_events_app _ _ _ Ht).
Qed.

(** X3. When the source cannot be opened, or its times cannot be read,
    copyFile returns the wrapped cause and has not touched the destination:
    the store and the bar are as before, and no directory was made and no
    file opened. *)
Theorem copyFile_unreadable_source src dst fileMtime option st cause :
  open_failure os src = Some cause \/
  (open_failure os src = None /\ os_fault os OpStatFile src = Some cause) ->
  exists msg st',
    copyFile os src dst fileMtime option st = (Err (ErrWrap cause msg), st') /\
    (msg = "open src file failed" \/ msg = "stat src file failed") /\
    fs st' = fs st /\ bar st' = bar st /\
    Forall (fun ev => writes ev = false) (new_events st st').
Proof.
  intros Hfail.
  pose proof (copyFile_outcome os src dst fileMtime option st) as Hout.
  destruct (copyFile os src dst fileMtime option st) as [r st']. simpl in Hout.
  inversion Hout; subst; try (destruct Hfail as [? | [? ?]]; congruence).
  - exists "open src file failed", (emit (EvOpen src) st).
    replace cause with e by (destruct Hfail as [? | [? ?]]; congruence).
    repeat split; [by left |].
    rewrite (new_events_app _ _ [EvOpen src]) by done. by repeat constructor.
  - exists "stat src file failed", (emit (EvStatFile src) (emit (EvOpen src) st)).
    replace cause with e by (destruct Hfail as [? | [? ?]]; congruence).
    repeat split; [by right |].
    rewrite (new_events_app _ _ [EvOpen src; EvStatFile src])
      by (simpl; by rewrite <- app_assoc).
    by repeat constructor.
Qed.

(** X4. There is no rollback.  When copyFile fails after it has opened the
    destination, the destination file stays as the statements before the
    failure left it: the empty file stamped by the store when inspecting it
    failed, and a file with the whole content of the source but the time
    stamp of the store, not the times of the source, when setting the times
    failed. *)
Theorem copyFile_failure_leaves_partial_file src dst fileMtime option st cause msg st' :
  copyFile os src dst fileMtime option st = (Err (ErrWrap cause msg), st') ->
  (msg = "stat dst file failed" ->
   exists f,
     files (fs st') !! dst = Some f /\ data f = [] /\ ModTime f = clock (fs st)) /\
  (msg = "chtimes failed, path: " +:+ dst ->
   exists srcFile f,
     os_files os !! src = Some srcFile /\ files (fs st') !! dst = Some f /\
     data f = data srcFile /\ ModTime f = clock (fs st)).
Proof.
  intros Hrun. apply copyFile_outcome_of in Hrun.
  inversion Hrun as
    [e st0 Ho Heq
    |e st0 Ho Hs Heq
    |e st0 Ho Hs Hod Hl
    |e st0 Ho Hs Hod Hsd Hl
    |
    |srcFile e st0 Hsrc Ho Hs Hod Hsd Hn Hc Hl
    |srcFile e st0 Hsrc Ho Hs Hod Hsd Hn Hc Hch Hl
    |]; subst.
  - split; [intros H; discriminate H |].
    intros H. vm_compute in H. discriminate H.
  - split; [intros H; discriminate H |].
    intros H. vm_compute in H. discriminate H.
  - split; [intros H; discriminate H |].
    intros H. vm_compute in H. discriminate H.
  - destruct Hl as (_ & Hf & _). split.
    + intros _. exists (truncated (fs st) dst).
      rewrite Hf, lookup_insert_eq, truncated_data, truncated_ModTime. done.
    + intros H. vm_compute in H. discriminate H.
  - split; [intros H; discriminate H |].
    intros H. vm_compute in H. discriminate H.
  - destruct Hl as (_ & Hf & _). split.
    + intros H. vm_compute in H. discriminate H.
    + intros _. eexists srcFile, _. split; [done |].
      split; [by rewrite Hf, lookup_insert_eq | done].
Qed.


(** X6. When Overwrite is off, the clock of the store is the modification
    time of the source and the index value is that time in milliseconds,
    copyFile takes the destination for up to date: it returns nil without
    copying, and what it leaves at dst is the empty file it made or cut
    down when opening it, whatever was there before. *)
Theorem copyFile_up_to_date_leaves_empty_file src dst fileMtime option st srcFile :
  os_files os !! src = Some srcFile ->
  os_fault os OpOpen src = None ->
  os_fault os OpStatFile src = None ->
  fault (fs st) OpOpenFile dst = None ->
  fault (fs st) OpStat dst = None ->
  Overwrite option = false ->
  ModTime srcFile = clock (fs st) ->
  fileMtime = UnixMilli (clock (fs st)) ->
  exists st' f,
    copyFile os src dst fileMtime option st = (Ok tt, st') /\
    files (fs st') !! dst = Some f /\ data f = [] /\ ModTime f = clock (fs st) /\
    bar st' = bar st /\
    EvCopy src dst ∉ new_events st st'.
Proof.
  intros Hsrc Ho Hs Hod Hsd Hov Hm Hi.
  assert (Hn : needs_copy srcFile (truncated (fs st) dst) fileMtime option = false).
  { apply needs_copy_false. by rewrite truncated_ModTime. }
  destruct (copyFile_run_skipped src dst fileMtime option st srcFile
              Hsrc Ho Hs Hod Hsd Hn) as (Hres & Ht & Hf & _ & Hb).
  destruct (copyFile os src dst fileMtime option st) as [r st']. simpl in *. subst r.
  exists st', (truncated (fs st) dst). split; [done |].
  split; [by rewrite Hf, lookup_insert_eq |].
  split; [apply truncated_data |]. split; [apply truncated_ModTime |].
  split; [done |].
  rewrite (new_events_app _ _ _ Ht). intros Hin.
  repeat (apply elem_of_cons in Hin as [Hin | Hin]; [done |]).
  by apply elem_of_nil in Hin.
Qed.

End CopyFileProperties.

(** * What tasks and Export keep *)

Section Keeping.

Context {LibraryInfo : Type}.
Variable os : Os LibraryInfo.
Variable R : State -> State -> Prop.
Hypothesis HR : steady R.

Lemma keeps_ret {A} (a : A) : keeps R (ret a).
Proof. intros st. apply (steady_refl R HR). Qed.

Lemma keeps_fail {A} e : keeps R (@fail A e).
Proof. intros st. apply (steady_refl R HR). Qed.

Lemma keeps_lift_sum {A} (r : error + A) : keeps R (lift_sum r).
Proof. destruct r; [apply keeps_fail | apply keeps_ret]. Qed.

Lemma keeps_bind {A B} (m : M A) (k : A -> M B) :
  keeps R m -> (forall a, keeps R (k a)) -> keeps R (bind m k).
Proof.
  intros Hm Hk st. unfold bind. specialize (Hm st).
  destruct (m st) as [[a | e] st1]; simpl in *; [| done].
  eapply (steady_trans R HR); [exact Hm | apply Hk].
Qed.

Lemma keeps_orWrap {A} (m : M A) msg : keeps R m -> keeps R (orWrap m msg).
Proof.
  intros Hm st. unfold orWrap. specialize (Hm st).
  by destruct (m st) as [[a | e] st1].
Qed.

Lemma keeps_if {A} (b : bool) (m1 m2 : M A) :
  keeps R m1 -> keeps R m2 -> keeps R (if b then m1 else m2).
Proof. by destruct b. Qed.

Lemma keeps_parseJsonFile {A} (parse : string -> error + A) path :
  keeps R (parseJsonFile parse path).
Proof.
  intros st. unfold parseJsonFile.
  eapply (steady_trans R HR); [by apply (steady_quiet R HR (EvParseJson path)) |].
  apply keeps_lift_sum.
Qed.

Lemma keeps_filter_Evaluate filter fileInfo :
  keeps R (filter_Evaluate os filter fileInfo).
Proof.
  intros st. unfold filter_Evaluate.
  eapply (steady_trans R HR); [by apply (steady_quiet R HR (EvEvaluate fileInfo)) |].
  apply keeps_lift_sum.
Qed.

Section WithOption.

Variable option : ExportOption.
Hypothesis Hcopy : forall src dst fileMtime, keeps R (copyFile os src dst fileMtime option).

Lemma keeps_task e outputDir filter fileInfoName mtime :
  keeps R (task os e outputDir option filter fileInfoName mtime).
Proof.
  unfold task.
  apply keeps_bind; [apply keeps_parseJsonFile |]. intros fileInfo.
  apply keeps_if; [apply keeps_ret |].
  apply keeps_bind; [| intros dst; apply Hcopy].
  unfold destination. apply keeps_if; [| apply keeps_ret].
  apply keeps_bind; [apply keeps_filter_Evaluate |]. intros category.
  apply keeps_if; apply keeps_ret.
Qed.

Lemma keeps_run_all f entries st :
  (forall n t, keeps R (f n t)) -> R st (snd (run_all f entries st)).
Proof.
  intros Hf. revert st. induction entries as [| [n t] rest IH]; intros st; simpl.
  - apply (steady_refl R HR).
  - pose proof (Hf n t (emit (EvGo n) st)) as Htask.
    destruct (f n t (emit (EvGo n) st)) as [r st1]. simpl in Htask.
    specialize (IH st1). destruct (run_all f rest st1) as [rs st2]. simpl in *.
    eapply (steady_trans R HR); [by apply (steady_quiet R HR (EvGo n)) |].
    eapply (steady_trans R HR); [exact Htask | exact IH].
Qed.

Hypothesis Hmax : Bar option = true -> forall n, keeps R (ChangeMax64 n).
Hypothesis Hfinish : Bar option = true -> keeps R Finish.

Lemma keeps_Export_body e outputDir : keeps R (Export_body os e outputDir option).
Proof.
  unfold Export_body.
  apply keeps_bind; [apply keeps_parseJsonFile |]. intros mtimeMap.
  apply keeps_bind; [apply keeps_parseJsonFile |]. intros lib.
  destruct (mtimeMap !! "all") as [count |]; [| apply keeps_fail].
  apply keeps_bind.
  { destruct (Bar option) eqn:Hb; [by apply Hmax | apply keeps_ret]. }
  intros _ st0. unfold deferFinish. rewrite range_run_all.
  pose proof (keeps_run_all (task os e outputDir option lib)
                (filter (fun kv => fst kv <> "all") (visit os mtimeMap)) st0
                (keeps_task e outputDir lib)) as Hloop.
  destruct (run_all _ _ st0) as [rs st1]. simpl in *.
  assert (Hwait : R st0 (emit EvWait st1)).
  { eapply (steady_trans R HR); [exact Hloop |]. by apply (steady_quiet R HR EvWait). }
  unfold Wait. destruct (Bar option) eqn:Hb.
  - destruct (errors_of rs); simpl;
      (eapply (steady_trans R HR); [exact Hwait | apply (Hfinish eq_refl)]).
  - by destruct (errors_of rs).
Qed.

Hypothesis Hremove : forall outputDir, Force option = true -> keeps R (RemoveAll outputDir).

Lemma keeps_Export e outputDir : keeps R (Export os e outputDir option).
Proof.
  intros st. pose proof (Hremove outputDir) as Hrm0.
  destruct (Force option) eqn:HF.
  - rewrite (Export_forced os _ _ _ _ HF).
    pose proof (Hrm0 eq_refl st) as Hrm.
    destruct (fault (fs st) OpRemoveAll outputDir) as [cause |] eqn:Hf.
    + by rewrite (RemoveAll_fails _ _ _ Hf) in Hrm.
    + rewrite (RemoveAll_succeeds _ _ Hf) in Hrm.
      eapply (steady_trans R HR); [exact Hrm | apply keeps_Export_body].
  - rewrite (Export_unforced os _ _ _ _ HF). apply keeps_Export_body.
Qed.

End WithOption.

End Keeping.

(** * Export: the bar, the files it leaves alone, the files it clears *)

Section ExportProperties.

Context {LibraryInfo : Type}.
Variable os : Os LibraryInfo.

Lemma steady_same_env : steady same_env.
Proof.
  split; [apply same_env_refl | apply same_env_trans | by intros].
Qed.

Lemma steady_same_bar : steady same_bar.
Proof.
  split; unfold same_bar; [done | congruence | done].
Qed.


Lemma only_opened_refl st : only_opened st st.
Proof. exists []. by rewrite app_nil_r. Qed.

Lemma only_opened_trans st1 st2 st3 :
  only_opened st1 st2 -> only_opened st2 st3 -> only_opened st1 st3.
Proof.
  intros (e1 & Ht1 & Hu1 & Hk1) (e2 & Ht2 & Hu2 & Hk2).
  exists (e1 ++ e2). split; [by rewrite Ht2, Ht1, app_assoc |]. split.
  - intros p Hp. rewrite Hu2, Hu1; [done | |]; intros Hin; apply Hp;
      apply elem_of_app; tauto.
  - intros p Hp. by apply Hk2, Hk1.
Qed.

Lemma only_opened_same_files st st' evs :
  trace st' = trace st ++ evs -> files (fs st') = files (fs st) -> only_opened st st'.
Proof. intros Ht Hf. exists evs. rewrite Hf. by repeat split. Qed.

Lemma steady_only_opened : steady only_opened.
Proof.
  split; [apply only_opened_refl | apply only_opened_trans |].
  intros ev st _. by apply (only_opened_same_files _ _ [ev]).
Qed.

Lemma steady_extends (P : event -> Prop) :
  (forall ev, quiet ev = true -> P ev) -> steady (extends P).
Proof.
  intros HP. split; [apply extends_refl | apply extends_trans |].
  intros ev st Hq. apply extends_emit. by apply HP.
Qed.

Lemma framed_of src dst fileMtime option st :
  framed dst option st (snd (copyFile os src dst fileMtime option st)).
Proof.
  eapply copy_outcome_frame. apply copyFile_outcome.
Qed.

Lemma copyFile_keeps_env src dst fileMtime option :
  keeps same_env (copyFile os src dst fileMtime option).
Proof. intros st. apply (framed_of src dst fileMtime option st). Qed.


Lemma copyFile_keeps_bar src dst fileMtime option :
  Bar option = false -> keeps same_bar (copyFile os src dst fileMtime option).
Proof.
  intros Hb st.
  destruct (framed_of src dst fileMtime option st) as (_ & _ & _ & _ & _ & H & _).
  by apply H.
Qed.

Lemma copyFile_keeps_only_opened src dst fileMtime option :
  keeps only_opened (copyFile os src dst fileMtime option).
Proof.
  intros st.
  destruct (framed_of src dst fileMtime option st)
    as (_ & Hp & Hk & _ & _ & _ & evs & Ht & Hno).
  exists evs. split; [done |]. split; [| done].
  intros p Hin. destruct (decide (p = dst)) as [-> | Hne].
  - by rewrite Hno.
  - by apply Hp.
Qed.

Lemma RemoveAll_keeps_env path : keeps same_env (RemoveAll path).
Proof.
  intros st. unfold RemoveAll, bind, guard, returnError. simpl.
  by destruct (fault (fs st) OpRemoveAll path).
Qed.

Lemma RemoveAll_keeps_bar path : keeps same_bar (RemoveAll path).
Proof.
  intros st. unfold RemoveAll, bind, guard, returnError. simpl.
  by destruct (fault (fs st) OpRemoveAll path).
Qed.

(** The whole of Export keeps the clock and the fault oracle. *)
Lemma Export_keeps_env e outputDir option :
  keeps same_env (Export os e outputDir option).
Proof.
  apply keeps_Export; try done.
  - apply steady_same_env.
  - intros. apply copyFile_keeps_env.
  - intros. apply RemoveAll_keeps_env.
Qed.

Lemma Export_body_keeps_only_opened e outputDir option :
  keeps only_opened (Export_body os e outputDir option).
Proof.
  apply keeps_Export_body.
  - apply steady_only_opened.
  - intros. apply copyFile_keeps_only_opened.
  - intros _ n st. by apply (only_opened_same_files _ _ [EvChangeMax n]).
  - intros _ st. by apply (only_opened_same_files _ _ [EvFinish]).
Qed.


(** X8. Without a bar in the options, Export leaves the bar of the state
    exactly as it was, however it ends. *)
Theorem Export_without_bar e outputDir option st :
  Bar option = false ->
  bar (snd (Export os e outputDir option st)) = bar st.
Proof.
  intros Hb.
  apply (keeps_Export os same_bar steady_same_bar option); try congruence.
  - intros. by apply copyFile_keeps_bar.
  - intros. apply RemoveAll_keeps_bar.
Qed.


(** X10. Without Force, Export removes nothing: every file of the
    destination store is still there afterwards, a path it never opened
    holds what it held, and RemoveAll is never called. *)
Theorem Export_without_Force_removes_nothing e outputDir option st :
  Force option = false ->
  let st' := snd (Export os e outputDir option st) in
  (forall p, is_Some (files (fs st) !! p) -> is_Some (files (fs st') !! p)) /\
  (forall p, EvOpenFile p ∉ new_events st st' ->
             files (fs st') !! p = files (fs st) !! p) /\
  (forall dir, EvRemoveAll dir ∉ new_events st st').
Proof.
  intros HF st'. subst st'. rewrite (Export_unforced os _ _ _ _ HF).
  destruct (Export_body_keeps_only_opened e outputDir option st) as (evs & Ht & Hu & Hk).
  rewrite (new_events_app _ _ _ Ht).
  split; [done |]. split; [done |].
  intros dir Hin.
  assert (Hemits : keeps (extends (fun ev => forall d, ev <> EvRemoveAll d))
                     (Export_body os e outputDir option)).
  { apply keeps_Export_body.
    - apply steady_extends. intros ev Hq d. by destruct ev.
    - intros src dst m. apply copyFile_emits. intros ev Hev d. by destruct ev.
    - intros _ n. by apply emits_ChangeMax64.
    - intros _. by apply emits_Finish. }
  destruct (Hemits st) as (evs' & Ht' & Hall).
  rewrite Ht in Ht'. apply app_inv_head in Ht'. subst evs'.
  rewrite Forall_forall in Hall. by apply (Hall _ Hin dir).
Qed.


End ExportProperties.

(** * Export: which error stops it, and what reaches the destination *)

Section ExportDelivery.

Context {LibraryInfo : Type}.
Variable os : Os LibraryInfo.

(** X12. Before the loop Export stops at the first document that fails,
    in the order of its statements: an unreadable index is returned as it
    is; with a readable index an unreadable library metadata document is
    returned as it is, even when the index has no "all" entry; only with
    both readable is the missing "all" entry reported, as the error
    "field 'all' not exists".  Without Force the destination store and the
    bar are then exactly as before. *)
Theorem Export_fatal_error_values e outputDir option st :
  let p1 := filepath.Join [BaseDir e; "mtime.json"] in
  let p2 := filepath.Join [BaseDir e; "metadata.json"] in
  let r := fst (Export os e outputDir option st) in
  let st' := snd (Export os e outputDir option st) in
  (Force option = true -> fault (fs st) OpRemoveAll outputDir = None) ->
  (forall err, parseMtime os p1 = inl err -> r = Err err) /\
  (forall m err, parseMtime os p1 = inr m -> parseLibraryInfo os p2 = inl err ->
                 r = Err err) /\
  (forall m lib, parseMtime os p1 = inr m -> parseLibraryInfo os p2 = inr lib ->
                 m !! "all" = None -> r = Err (ErrNew "field 'all' not exists")) /\
  (Force option = false ->
   (exists err, parseMtime os p1 = inl err) \/
   (exists err, parseLibraryInfo os p2 = inl err) \/
   (exists m, parseMtime os p1 = inr m /\ m !! "all" = None) ->
   fs st' = fs st /\ bar st' = bar st).
Proof.
  intros p1 p2 r st' Hrm. subst r st'.
  split; [| split; [| split]].
  4:{ intros HF Hfatal. rewrite (Export_unforced os _ _ _ _ HF).
      destruct (Export_body_fatal os e outputDir option st Hfatal)
        as (err & st' & Hrun & Hfs & Hbar & _).
      by rewrite Hrun. }
  all: assert (Hbody : exists sta,
         Export os e outputDir option st = Export_body os e outputDir option sta)
    by (destruct (Force option) eqn:HF;
        [rewrite (Export_forced os _ _ _ _ HF), (Hrm eq_refl) |
         rewrite (Export_unforced os _ _ _ _ HF)]; by eexists).
  all: destruct Hbody as (sta & ->).
  all: unfold Export_body, bind, parseJsonFile; fold p1 p2.
  - intros err H1. by rewrite H1.
  - intros m err H1 H2. rewrite H1. simpl. by rewrite H2.
  - intros m lib H1 H2 Hall. rewrite H1. simpl. rewrite H2. simpl. by rewrite Hall.
Qed.


Section OneExport.

Variable e : Library.
Variable outputDir : string.
Variable option : ExportOption.
Variable filter : LibraryInfo.




End OneExport.




(** X14. When the index holds nothing but the "all" entry, Export submits
    no task and returns nil; without Force the files of the destination
    store are all as before. *)
Theorem Export_of_empty_index e outputDir option st lib count :
  (Force option = true -> fault (fs st) OpRemoveAll outputDir = None) ->
  parseMtime os (filepath.Join [BaseDir e; "mtime.json"]) = inr {[ "all" := count ]} ->
  parseLibraryInfo os (filepath.Join [BaseDir e; "metadata.json"]) = inr lib ->
  visit os {[ "all" := count ]} ≡ₚ map_to_list ({[ "all" := count ]} : gmap string Z) ->
  fst (Export os e outputDir option st) = Ok tt /\
  Forall (fun ev => is_Go ev = false /\ writes ev = false)
         (new_events st (snd (Export os e outputDir option st))) /\
  (Force option = false -> files (fs (snd (Export os e outputDir option st))) = files (fs st)).
Proof.
  intros Hrm H1 H2 Hperm.
  rewrite map_to_list_singleton in Hperm.
  apply Permutation_singleton_r in Hperm.
  assert (Hbody : exists sta pre,
    Export os e outputDir option st = Export_body os e outputDir option sta /\
    trace sta = trace st ++ pre /\
    Forall (fun ev => is_Go ev = false /\ writes ev = false) pre /\
    (Force option = false -> sta = st)).
  { destruct (Force option) eqn:HF.
    - rewrite (Export_forced os _ _ _ _ HF), (Hrm eq_refl).
      eexists _, [EvRemoveAll outputDir]. repeat split; try done. by repeat constructor.
    - rewrite (Export_unforced os _ _ _ _ HF). exists st, [].
      repeat split; try done. by rewrite app_nil_r. }
  destruct Hbody as (sta & pre & -> & Hta & Hpre & Hsta).
  rewrite (Export_body_loop os e outputDir option sta _ lib count H1 H2)
    by apply lookup_singleton_eq.
  cbv zeta. rewrite Hperm. unfold assets.
  rewrite filter_cons_False by (simpl; tauto). rewrite filter_nil.
  cbn [run_all fst snd joined errors_of omap].
  split; [done |]. split.
  - rewrite (new_events_app st _
      (pre ++ [EvParseJson (filepath.Join [BaseDir e; "mtime.json"]);
               EvParseJson (filepath.Join [BaseDir e; "metadata.json"])] ++
       (if Bar option then [EvChangeMax count; EvWait; EvFinish] else [EvWait]))).
    + apply Forall_app. split; [done |]. destruct (Bar option); by repeat constructor.
    + destruct (Bar option); simpl; rewrite Hta, <- !app_assoc; done.
  - intros HF. rewrite (Hsta HF). by destruct (Bar option).
Qed.


End ExportDelivery.

(** * These properties at work on the demonstration library *)

Lemma copyFile_error_names_its_step_witness :
  exists cause msg,
    ErrWrap (Errno "ENOSPC") "copy file failed" = ErrWrap cause msg /\
    ((msg = "open src file failed" /\
      open_failure Demo.library "lib/images/a1.info/x.jpg" = Some cause) \/
     (msg = "stat src file failed" /\
      os_fault Demo.library OpStatFile "lib/images/a1.info/x.jpg" = Some cause) \/
     (msg = "open dst file failed" /\ fault Demo.no_write OpOpenFile "out/x.jpg" = Some cause) \/
     (msg = "stat dst file failed" /\ fault Demo.no_write OpStat "out/x.jpg" = Some cause) \/
     (msg = "copy file failed" /\
      copy_failure Demo.library "lib/images/a1.info/x.jpg" "out/x.jpg"
        (Demo.start Demo.no_write) = Some cause) \/
     (msg = "chtimes failed, path: " +:+ "out/x.jpg" /\
      fault Demo.no_write OpChtimes "out/x.jpg" = Some cause)).
Proof.
  apply (copyFile_error_names_its_step Demo.library "lib/images/a1.info/x.jpg" "out/x.jpg"
           1000 Demo.flat (Demo.start Demo.no_write) _
           (snd (copyFile Demo.library "lib/images/a1.info/x.jpg" "out/x.jpg" 1000
                   Demo.flat (Demo.start Demo.no_write)))).
  vm_compute. reflexivity.
Defined.

Lemma copyFile_touches_only_dst_witness :
  files (fs (snd (copyFile Demo.library "lib/images/a1.info/x.jpg" "out/x.jpg" 1000
                    Demo.flat (Demo.start Demo.with_notes)))) !! "out/notes.txt"
  = Some (mkFile Demo.old 1 2).
Proof.
  apply (proj1 (proj2 (proj2
           (copyFile_touches_only_dst Demo.library "lib/images/a1.info/x.jpg" "out/x.jpg"
              1000 Demo.flat (Demo.start Demo.with_notes) _ _
              ltac:(vm_compute; reflexivity))))
           "out/notes.txt").
  discriminate.
Defined.

Lemma copyFile_unreadable_source_witness :
  exists msg st',
    copyFile Demo.library "lib/images/a1.info/gone.jpg" "out/x.jpg" 1000 Demo.flat
      (Demo.start Demo.stale) = (Err (ErrWrap (Errno "ENOENT") msg), st') /\
    (msg = "open src file failed" \/ msg = "stat src file failed") /\
    fs st' = Demo.stale /\ bar st' = mkBar 0 0 false /\
    Forall (fun ev => writes ev = false) (new_events (Demo.start Demo.stale) st').
Proof.
  apply (copyFile_unreadable_source Demo.library "lib/images/a1.info/gone.jpg" "out/x.jpg"
           1000 Demo.flat (Demo.start Demo.stale) (Errno "ENOENT")).
  left. reflexivity.
Defined.

Lemma copyFile_failure_leaves_partial_file_witness :
  (exists f,
     files (fs (snd (copyFile Demo.library "lib/images/a1.info/x.jpg" "out/x.jpg" 1000
                       Demo.flat (Demo.start Demo.no_stat)))) !! "out/x.jpg" = Some f /\
     data f = [] /\ ModTime f = 9000000000) /\
  exists srcFile f,
    os_files Demo.library !! "lib/images/a1.info/x.jpg" = Some srcFile /\
    files (fs (snd (copyFile Demo.library "lib/images/a1.info/x.jpg" "out/x.jpg" 1000
                      Demo.flat (Demo.start Demo.no_chtimes)))) !! "out/x.jpg" = Some f /\
    data f = data srcFile /\ ModTime f = 9000000000.
Proof.
  split.
  - apply (proj1 (copyFile_failure_leaves_partial_file Demo.library
                    "lib/images/a1.info/x.jpg" "out/x.jpg" 1000 Demo.flat
                    (Demo.start Demo.no_stat) (Errno "EIO") "stat dst file failed" _
                    ltac:(vm_compute; reflexivity))).
    reflexivity.
  - apply (proj2 (copyFile_failure_leaves_partial_file Demo.library
                    "lib/images/a1.info/x.jpg" "out/x.jpg" 1000 Demo.flat
                    (Demo.start Demo.no_chtimes) (Errno "EPERM")
                    ("chtimes failed, path: " +:+ "out/x.jpg") _
                    ltac:(vm_compute; reflexivity))).
    reflexivity.
Defined.


Lemma copyFile_up_to_date_leaves_empty_file_witness :
  exists st' f,
    copyFile Demo.library "lib/images/a1.info/x.jpg" "out/x.jpg" 1000 Demo.flat
      (Demo.start Demo.same_instant) = (Ok tt, st') /\
    files (fs st') !! "out/x.jpg" = Some f /\ data f = [] /\ ModTime f = 1000000000 /\
    bar st' = mkBar 0 0 false /\
    EvCopy "lib/images/a1.info/x.jpg" "out/x.jpg"
      ∉ new_events (Demo.start Demo.same_instant) st'.
Proof.
  apply (copyFile_up_to_date_leaves_empty_file Demo.library "lib/images/a1.info/x.jpg"
           "out/x.jpg" 1000 Demo.flat (Demo.start Demo.same_instant) Demo.source);
    reflexivity.
Defined.


Lemma Export_without_bar_witness :
  bar (snd (Export Demo.library Demo.lib "out" Demo.forced (Demo.start Demo.exported)))
  = mkBar 0 0 false.
Proof.
  apply (Export_without_bar Demo.library Demo.lib "out" Demo.forced
           (Demo.start Demo.exported)).
  reflexivity.
Defined.


Lemma Export_without_Force_removes_nothing_witness :
  is_Some (files (fs (snd (Export Demo.library Demo.lib "out" Demo.flat
                             (Demo.start Demo.with_notes)))) !! "out/notes.txt").
Proof.
  apply (proj1 (Export_without_Force_removes_nothing Demo.library Demo.lib "out" Demo.flat
                  (Demo.start Demo.with_notes) eq_refl) "out/notes.txt").
  vm_compute. eauto.
Defined.


Lemma Export_fatal_error_values_witness :
  fst (Export Demo.no_index Demo.lib "out" Demo.flat (Demo.start Demo.exported))
  = Err (Errno "ENOENT").
Proof.
  apply (proj1 (Export_fatal_error_values Demo.no_index Demo.lib "out" Demo.flat
                  (Demo.start Demo.exported) ltac:(discriminate)) (Errno "ENOENT")).
  reflexivity.
Defined.


Lemma Export_of_empty_index_witness :
  fst (Export Demo.no_assets Demo.lib "out" Demo.flat (Demo.start Demo.with_notes)) = Ok tt /\
  Forall (fun ev => is_Go ev = false /\ writes ev = false)
    (new_events (Demo.start Demo.with_notes)
       (snd (Export Demo.no_assets Demo.lib "out" Demo.flat (Demo.start Demo.with_notes)))) /\
  (Force Demo.flat = false ->
   files (fs (snd (Export Demo.no_assets Demo.lib "out" Demo.flat
                     (Demo.start Demo.with_notes)))) = files Demo.with_notes).
Proof.
  apply (Export_of_empty_index Demo.no_assets Demo.lib "out" Demo.flat
           (Demo.start Demo.with_notes) tt 0); reflexivity.
Defined.
